(** * The export loop of [src/export.py] ([Export.accept], [Export.updateProgressBar])

    A shallow embedding of the frame loop that drives a video export, of the
    progress estimate it computes on display ticks, of the exception handler
    that follows it and of the slot that turns a progress signal into a
    percentage.

    Modelling choices.
    - Python [int] is [Z].  In the export loop a Python [float] is [Q]:
      every finite double is a rational, and the arithmetic is taken exact
      (IEEE rounding is not modelled).  [round], [math.ceil], [%] and true
      division are written out on [Q] with the exceptions Python raises.
      In [convert_to_bytes], where a NaN, an infinity and the rounding of a
      product change what the method does, a [float] is an IEEE 754 double
      ([PrimFloat.float]).
    - Exceptions are a sum type ([result]); [str(e)] is the carried string.
    - What the loop does to the outside (signals, writer and timeline calls,
      logging, dialogs) is the list of [event]s it returns, in program order.
    - What the outside does to the loop is an [Env]: the readings of
      [time.time()], what [WriteFrame] does for a frame, the value of
      [self.exporting] when it is polled, and the platform's [math.log10]. *)

From Stdlib Require Import ZArith QArith Qround List String Ascii Bool Lia.
From Stdlib Require Import Sorted DecimalString Lqa.
From Stdlib Require Import Floats Uint63.
Import ListNotations.

Local Open Scope string_scope.
Local Open Scope list_scope.
Local Open Scope Z_scope.

(** ** Python primitives *)

Module Py.

(** The outcome of evaluating an expression that may raise. *)
Inductive result (A : Type) : Type :=
| Ok (a : A)
| Raise (msg : string).
Arguments Ok {A} a.
Arguments Raise {A} msg.

Definition bind {A B : Type} (r : result A) (k : A -> result B) : result B :=
  match r with
  | Ok a => k a
  | Raise msg => Raise msg
  end.

(** [x > y] on floats. *)
Definition gt (x y : Q) : bool := negb (Qle_bool x y).

(** [x != y] on floats. *)
Definition ne (x y : Q) : bool := negb (Qeq_bool x y).

(** [round(x)] with one argument: the nearest integer, ties to even. *)
Definition round (x : Q) : Z :=
  let n := Qfloor x in
  match (x - inject_Z n ?= 1 # 2)%Q with
  | Lt => n
  | Gt => n + 1
  | Eq => if Z.even n then n else n + 1
  end.

(** [math.ceil(x)]. *)
Definition ceil (x : Q) : Z := Qceiling x.

(** [x / y]: true division, [ZeroDivisionError] on a zero divisor. *)
Definition truediv (x y : Q) : result Q :=
  if Qeq_bool y 0 then Raise "float division by zero" else Ok (x / y)%Q.

(** [x % y] on floats, for a positive [y]: the remainder of floor
    division. *)
Definition fmod (x y : Q) : Q := (x - y * inject_Z (Qfloor (x / y)))%Q.

(** What ["%d" % x] prints for a float [x]: [x] truncated towards zero. *)
Definition int_of_float (x : Q) : Z :=
  if Qle_bool 0 x then Qfloor x else Qceiling x.

(** [math.log10(x)], over the platform's [log10]: [ValueError] outside
    the domain. *)
Definition log10 (libm_log10 : Q -> Q) (x : Q) : result Q :=
  if gt x 0 then Ok (libm_log10 x) else Raise "math domain error".

(** [str(n)] for an integer. *)
Definition str (n : Z) : string := NilZero.string_of_int (Z.to_int n).

(** [needle in s]. *)
Fixpoint contains (needle s : string) : bool :=
  if String.prefix needle s then true
  else match s with
       | EmptyString => false
       | String _ s' => contains needle s'
       end.

(** [s.split(sep)[0]] for a non-empty [sep]: [s] up to the first [sep]. *)
Fixpoint split_head (sep s : string) : string :=
  if String.prefix sep s then EmptyString
  else match s with
       | EmptyString => EmptyString
       | String c s' => String c (split_head sep s')
       end.

(** [s.replace(c, "")] for a one-character [c]. *)
Fixpoint remove_char (c : ascii) (s : string) : string :=
  match s with
  | EmptyString => EmptyString
  | String c' s' =>
      if Ascii.eqb c c' then remove_char c s' else String c' (remove_char c s')
  end.

End Py.

Import Py.

Notation "x <- c1 ;; c2" := (Py.bind c1 (fun x => c2))
  (at level 61, c1 at next level, right associativity).

(** ** What the loop emits and what it is given *)

(** The window title the loop sends with a progress signal.  [TitleTime] holds
    the values [titlestring] formats: ["%(hours)d:%(minutes)02d:%(seconds)02d "
    + mess + " (%(fps)5.2f FPS)"]. *)
Inductive title : Type :=
| TitleEmpty                       (* "" *)
| TitleFinalizing                  (* "Finalizing video export, please wait..." *)
| TitleTime (hours minutes seconds : Z) (mess : string) (fps : Q).

Inductive event : Type :=
| WriterOpen                                        (* w.Open() *)
| ExportStarted (path : string) (start_frame end_frame : Z)
| ExportFrame (title_message : title) (start_frame end_frame frame : Z)
              (format_of_progress_string : string)
| ProcessEvents                                     (* QCoreApplication.processEvents() *)
| WriteFrame (frame : Z)                            (* w.WriteFrame(self.timeline.GetFrame(frame)) *)
| WriterClose                                       (* w.Close() *)
| LogInfo (text : string)
| TrackMetricError (metric : string)
| MessageBox (text : string)                        (* msg.exec_() *)
| ExportEnded (path : string)
| TimelineClose                                     (* self.timeline.Close() *)
| ClearAllCache.                                    (* self.timeline.ClearAllCache() *)

(** The surroundings of one export. *)
Record Env : Type := {
  (** the [n]-th reading of [time.time()], counted from 0 *)
  clock : nat -> Q;
  (** [WriteFrame(GetFrame(frame))]: [None] when it returns, [Some msg] when
      it raises an exception [e] with [str(e) = msg] *)
  write_frame : Z -> option string;
  (** the value of [self.exporting] read after the write of [frame] *)
  exporting : Z -> bool;
  (** the platform's [log10] on positive floats *)
  libm_log10 : Q -> Q
}.

(** The settings the handler quotes, as [%s] prints them. *)
Record settings : Type := {
  vformat : string;
  vcodec : string;
  acodec : string;
  channels : string;
  sample_rate : string
}.

(** ** The estimator: lines 1039-1061 *)

(** [titlestring(sec, fps, mess)]. *)
Definition titlestring (sec : Z) (fps : Q) (mess : string) : title :=
  TitleTime (Py.int_of_float (inject_Z sec / 3600)%Q)
            (Py.int_of_float (Py.fmod (inject_Z sec / 60)%Q 60%Q))
            (sec mod 60)
            mess fps.

(** [progressstep], line 1027. *)
Definition progressstep (start_frame end_frame : Z) : Z :=
  Z.max 1 (Py.round (inject_Z (end_frame - start_frame) / 1000)%Q).

(** Lines 1040-1051, as a function of the difference
    [current_exported_portion - last_displayed_exported_portion]. *)
Definition digits_after_decimalpoint (log10 : Q -> Q) (delta : Q) : result Z :=
  d <- (if Py.gt delta 0%Q
        then l <- Py.log10 log10 delta ;; Ok (Py.ceil (-2 - l)%Q)
        else Ok 1) ;;
  let d := if d <? 1 then 1 else d in
  let d := if d >? 5 then 5 else d in
  Ok d.

(** The progress format of line 1053. *)
Definition progress_format (digits : Z) : string :=
  ("%4." ++ Py.str digits ++ "f%% ")%string.

(** Line 1056. *)
Definition seconds_left (start_time_export end_time_export : Q)
    (frame start_frame_export end_frame_export : Z) : result Z :=
  q <- Py.truediv ((start_time_export - end_time_export)
                   * inject_Z (frame - end_frame_export))%Q
                  (inject_Z (frame - start_frame_export)) ;;
  Ok (Py.round q).

(** Line 1057. *)
Definition fps_of (start_time_export end_time_export : Q)
    (frame start_frame_export : Z) : result Q :=
  Py.truediv (inject_Z (frame - start_frame_export))
             (end_time_export - start_time_export)%Q.

(** The locals a display tick reads and writes. *)
Record progress : Type := {
  last_exported_time : Q;
  last_displayed_exported_portion : Q;
  format_of_progress_string : string;
  title_message : title;
  fps_encode : Q
}.

(** Lines 1039-1061: the body of the display branch up to the signal.
    [time_now] is the reading of line 1054. *)
Definition update_progress (log10 : Q -> Q)
    (start_time_export end_time_export time_now : Q)
    (start_frame_export end_frame_export frame : Z) (p : progress)
  : result progress :=
  current_exported_portion <-
    Py.truediv (inject_Z (frame - start_frame_export) * 1)%Q
               (inject_Z (end_frame_export - start_frame_export)) ;;
  digits <- digits_after_decimalpoint log10
              (current_exported_portion - last_displayed_exported_portion p)%Q ;;
  if negb (frame - start_frame_export =? 0)
     && Py.ne (end_time_export - start_time_export)%Q 0%Q
  then
    sl <- seconds_left start_time_export end_time_export
            frame start_frame_export end_frame_export ;;
    fps <- fps_of start_time_export end_time_export frame start_frame_export ;;
    Ok {| last_exported_time := time_now;
          last_displayed_exported_portion := current_exported_portion;
          format_of_progress_string := progress_format digits;
          title_message := if frame =? end_frame_export
                           then TitleFinalizing
                           else titlestring sl fps "Remaining";
          fps_encode := fps |}
  else
    Ok {| last_exported_time := time_now;
          last_displayed_exported_portion := current_exported_portion;
          format_of_progress_string := progress_format digits;
          title_message := title_message p;
          fps_encode := fps_encode p |}.

(** The throttle of line 1038. *)
Definition is_display_tick (step frame : Z) (end_time_export : Q) (p : progress)
  : bool :=
  (frame mod step =? 0) || Py.gt (end_time_export - last_exported_time p)%Q 1%Q.

(** ** The frame loop: lines 1035-1083 *)

(** How the [for] statement was left. *)
Inductive loop_exit : Type :=
| Exhausted                        (* the range ran out *)
| Break                            (* line 1083 *)
| Raised (error_type_str : string).

(** The locals that outlive the loop. *)
Record locals : Type := {
  clock_reads : nat;               (* readings of [time.time()] so far *)
  end_time_export : option Q;      (* unbound until the first iteration *)
  max_frame : Z;
  shown : progress
}.

Section Loop.

Variable env : Env.
Variable start_time_export : Q.
Variables start_frame end_frame : Z.

(** Lines 1038-1073: the display branch of one iteration.  It gives the
    signals sent, the clock readings taken so far and the display locals,
    or the exception raised before anything was sent. *)
Definition display (frame : Z) (end_time : Q) (reads : nat) (p : progress)
  : result (list event * nat * progress) :=
  if is_display_tick (progressstep start_frame end_frame) frame end_time p
  then
    p' <- update_progress (libm_log10 env) start_time_export end_time
            (clock env reads) start_frame end_frame frame p ;;
    Ok ([ExportFrame (title_message p') start_frame end_frame frame
           (format_of_progress_string p');
         ProcessEvents], S reads, p')
  else Ok ([], reads, p).

(** [n] is the number of frames the range still holds, [frame] the next
    one.  The events are those of the iterations run, in order. *)
Fixpoint frame_loop (n : nat) (frame : Z) (st : locals)
  : list event * loop_exit * locals :=
  match n with
  | O => ([], Exhausted, st)
  | S n' =>
      let end_time := clock env (clock_reads st) in
      match display frame end_time (S (clock_reads st)) (shown st) with
      | Raise msg =>
          ([], Raised msg,
           {| clock_reads := S (clock_reads st);
              end_time_export := Some end_time;
              max_frame := max_frame st; shown := shown st |})
      | Ok (signals, reads, p) =>
          let st' := {| clock_reads := reads; end_time_export := Some end_time;
                        max_frame := frame; shown := p |} in
          match write_frame env frame with
          | Some msg => (signals ++ [WriteFrame frame], Raised msg, st')
          | None =>
              if exporting env frame
              then let '(rest, ex, st'') := frame_loop n' (frame + 1) st' in
                   (signals ++ WriteFrame frame :: rest, ex, st'')
              else (signals ++ [WriteFrame frame], Break, st')
          end
      end
  end.

End Loop.

(** ** The exception handler: lines 1100-1133 *)

(** The arm of the [if]/[elif] chain that a message selects. *)
Inductive error_marker : Type :=
| InvalidChannels
| InvalidSampleRate
| InvalidFormat
| InvalidCodec
| ErrorEncodingVideo.

Definition error_branch (error_type_str : string) : option error_marker :=
  if Py.contains "InvalidChannels" error_type_str then Some InvalidChannels
  else if Py.contains "InvalidSampleRate" error_type_str then Some InvalidSampleRate
  else if Py.contains "InvalidFormat" error_type_str then Some InvalidFormat
  else if Py.contains "InvalidCodec" error_type_str then Some InvalidCodec
  else if Py.contains "ErrorEncodingVideo" error_type_str then Some ErrorEncodingVideo
  else None.

(** The argument of [track_metric_error] in each arm. *)
Definition metric_of (cfg : settings) (m : error_marker) : string :=
  match m with
  | InvalidChannels =>
      "invalid-channels-" ++ vformat cfg ++ "-" ++ vcodec cfg ++ "-"
        ++ acodec cfg ++ "-" ++ channels cfg
  | InvalidSampleRate =>
      "invalid-sample-rate-" ++ vformat cfg ++ "-" ++ vcodec cfg ++ "-"
        ++ acodec cfg ++ "-" ++ sample_rate cfg
  | InvalidFormat => "invalid-format-" ++ vformat cfg
  | InvalidCodec =>
      "invalid-codec-" ++ vformat cfg ++ "-" ++ vcodec cfg ++ "-" ++ acodec cfg
  | ErrorEncodingVideo =>
      "video-encode-" ++ vformat cfg ++ "-" ++ vcodec cfg ++ "-" ++ acodec cfg
  end%string.

(** The argument of [log.info] in each arm. *)
Definition log_of (cfg : settings) (m : error_marker) : string :=
  match m with
  | InvalidChannels =>
      "Error setting invalid # of channels (" ++ channels cfg ++ ")"
  | InvalidSampleRate =>
      "Error setting invalid sample rate (" ++ sample_rate cfg ++ ")"
  | InvalidFormat => "Error setting invalid format (" ++ vformat cfg ++ ")"
  | InvalidCodec =>
      "Error setting invalid codec (" ++ vformat cfg ++ "/" ++ vcodec cfg ++ "/"
        ++ acodec cfg ++ ")"
  | ErrorEncodingVideo =>
      "Error encoding video frame (" ++ vformat cfg ++ "/" ++ vcodec cfg ++ "/"
        ++ acodec cfg ++ ")"
  end%string.

(** Line 1127. *)
Definition friendly_error (error_type_str : string) : string :=
  Py.remove_char "<" (Py.split_head "> " error_type_str).

Definition newline : string := String "010" "".

Definition except_handler (cfg : settings) (error_type_str : string) : list event :=
  LogInfo ("Error type string: " ++ error_type_str)
  :: match error_branch error_type_str with
     | Some m => [LogInfo (log_of cfg m); TrackMetricError (metric_of cfg m)]
     | None => []
     end
  ++ [MessageBox ("Sorry, there was an error exporting your video: " ++ newline
                  ++ friendly_error error_type_str)].

(** ** One export: lines 1020-1145 *)

Record run : Type := {
  events : list event;
  exit : loop_exit;
  final : locals
}.

(** The locals as lines 820-821, 967, 970 and 1028-1032 leave them.  The
    first two clock readings are lines 1028 and 1031. *)
Definition initial_locals (env : Env) : locals :=
  {| clock_reads := 2;
     end_time_export := None;
     max_frame := 0;
     shown := {| last_exported_time := clock env 1;
                 last_displayed_exported_portion := 0;
                 format_of_progress_string := "%4.1f%% ";
                 title_message := TitleEmpty;
                 fps_encode := 0 |} |}.

(** [str(e)] of the [UnboundLocalError] for [end_time_export]. *)
Definition unbound_end_time : string :=
  "local variable 'end_time_export' referenced before assignment".

(** Lines 1085-1098: what follows a loop that did not raise.  The read of
    [end_time_export] raises when no iteration bound it. *)
Definition after_loop (start_time_export : Q) (start_frame end_frame : Z)
    (st : locals) : list event * option string :=
  match end_time_export st with
  | None =>
      ([WriterClose], Some unbound_end_time)
  | Some end_time =>
      let seconds_run := Py.round (end_time - start_time_export)%Q in
      ([WriterClose;
        ExportFrame (titlestring seconds_run (fps_encode (shown st)) "Elapsed")
          start_frame end_frame (max_frame st)
          (format_of_progress_string (shown st))],
       None)
  end.

(** Lines 1135-1142. *)
Definition teardown (path : string) : list event :=
  [ExportEnded path; TimelineClose; ClearAllCache].

(** The [for] statement over [range(start_frame, end_frame + 1)], entered
    with the locals of [initial_locals]; [start_time_export] is the first
    clock reading. *)
Definition export_loop (env : Env) (start_frame end_frame : Z)
  : list event * loop_exit * locals :=
  frame_loop env (clock env 0) start_frame end_frame
    (Z.to_nat (end_frame + 1 - start_frame)) start_frame (initial_locals env).

(** Lines 1020-1145: from [w.Open()] to the teardown. *)
Definition export (env : Env) (cfg : settings) (path : string)
    (start_frame end_frame : Z) : run :=
  let start_time_export := clock env 0 in
  let '(frames, ex, st) := export_loop env start_frame end_frame in
  let opened := [WriterOpen; ExportStarted path start_frame end_frame] ++ frames in
  let '(tried, ex') :=
    match ex with
    | Raised msg => (opened, Raised msg)
    | _ =>
        match after_loop start_time_export start_frame end_frame st with
        | (closing, Some msg) => (opened ++ closing, Raised msg)
        | (closing, None) => (opened ++ closing, ex)
        end
    end in
  {| events := tried
               ++ match ex' with
                  | Raised msg => except_handler cfg msg
                  | _ => []
                  end
               ++ teardown path;
     exit := ex';
     final := st |}.

(** Lines 829-838 and then the export: equal bounds are turned away with a
    dialog before anything is opened.  The checks in between (file name,
    overwrite prompt) and the set-up of the writer are taken to pass. *)
Definition accept (env : Env) (cfg : settings) (path : string)
    (start_frame end_frame : Z) : list event * option loop_exit :=
  if start_frame =? end_frame
  then ([MessageBox "Sorry, please select a valid range of frames to export"], None)
  else let r := export env cfg path start_frame end_frame in
       (events r, Some (exit r)).

(** ** The progress slot: lines 318-327 *)

(** [percentage_string]: a format applied to a number, or a literal. *)
Inductive percentage : Type :=
| Formatted (format_of_progress_string : string) (value : Q)
| Literal (text : string).

Record progress_bar : Type := {
  bar_value : Z;                   (* setValue *)
  bar_format : percentage;         (* setFormat *)
  window_title : percentage * title  (* "%s %s" % (percentage_string, title_message) *)
}.

(** [x / y] on integers. *)
Definition truediv_int (x y : Z) : result Q :=
  if y =? 0 then Raise "division by zero" else Ok (inject_Z x / inject_Z y)%Q.

Definition updateProgressBar (title_message : title)
    (start_frame end_frame current_frame : Z) (format_of_progress_string : string)
  : result progress_bar :=
  percentage_string <-
    (if end_frame - start_frame >? 0
     then q <- truediv_int (current_frame - start_frame) (end_frame - start_frame) ;;
          Ok (Formatted format_of_progress_string (q * 100)%Q)
     else Ok (Literal "100%")) ;;
  Ok {| bar_value := current_frame;
        bar_format := percentage_string;
        window_title := (percentage_string, title_message) |}.

(** ** Reading a list of events *)

(** The frames passed to [WriteFrame], in order. *)
Fixpoint writes (evs : list event) : list Z :=
  match evs with
  | [] => []
  | WriteFrame f :: evs' => f :: writes evs'
  | _ :: evs' => writes evs'
  end.

(** The [frame] argument of the progress signals, in order. *)
Fixpoint signalled (evs : list event) : list Z :=
  match evs with
  | [] => []
  | ExportFrame _ _ _ f _ :: evs' => f :: signalled evs'
  | _ :: evs' => signalled evs'
  end.

Definition is_elapsed (ev : event) : bool :=
  match ev with
  | ExportFrame (TitleTime _ _ _ mess _) _ _ _ _ => String.eqb mess "Elapsed"
  | _ => false
  end.

Definition is_remaining (ev : event) : bool :=
  match ev with
  | ExportFrame (TitleTime _ _ _ mess _) _ _ _ _ => String.eqb mess "Remaining"
  | _ => false
  end.

Definition is_close (ev : event) : bool :=
  match ev with WriterClose => true | _ => false end.

(** [start, start + 1, ..., start + n - 1]. *)
Fixpoint frames_from (start : Z) (n : nat) : list Z :=
  match n with
  | O => []
  | S n' => start :: frames_from (start + 1) n'
  end.

(** The loop with the display branch left out: the frames passed to
    [WriteFrame] and how the [for] statement is left. *)
Fixpoint frames_run (env : Env) (n : nat) (frame : Z) : list Z * loop_exit :=
  match n with
  | O => ([], Exhausted)
  | S n' =>
      match write_frame env frame with
      | Some msg => ([frame], Raised msg)
      | None =>
          if exporting env frame
          then let '(rest, ex) := frames_run env n' (frame + 1) in
               (frame :: rest, ex)
          else ([frame], Break)
      end
  end.

(** A title the loop itself may hold: never an elapsed time. *)
Definition loop_title (t : title) : Prop :=
  match t with
  | TitleTime _ _ _ mess _ => mess = "Remaining"
  | _ => True
  end.

(** ** Sample surroundings *)

(** The integer part of [log10 x] for a positive [x]: a coarse stand-in for
    the platform's function, used to run the loop on sample inputs. *)
Fixpoint ilog10_up (fuel : nat) (x : Q) : Z :=
  match fuel with
  | O => 0
  | S fuel' => if Qle_bool 10 x then 1 + ilog10_up fuel' (x / 10)%Q else 0
  end.

Fixpoint ilog10_down (fuel : nat) (x : Q) : Z :=
  match fuel with
  | O => 0
  | S fuel' => if Qle_bool 1 x then 0 else ilog10_down fuel' (x * 10)%Q - 1
  end.

Definition ilog10 (x : Q) : Q :=
  let fuel := Z.to_nat (Z.log2 (Z.abs (Qnum x)) + Z.log2 (Zpos (Qden x)) + 1) in
  inject_Z (if Qle_bool 1 x then ilog10_up fuel x else ilog10_down fuel x).

(** A clock that advances by [dt] seconds per reading. *)
Definition steady_clock (dt : Q) (n : nat) : Q := (inject_Z (Z.of_nat n) * dt)%Q.

(** Nothing fails and nobody cancels. *)
Definition quiet (dt : Q) : Env :=
  {| clock := steady_clock dt;
     write_frame := fun _ => None;
     exporting := fun _ => true;
     libm_log10 := ilog10 |}.

(** The writer raises [msg] at frame [k]. *)
Definition failing_at (k : Z) (msg : string) (dt : Q) : Env :=
  {| clock := steady_clock dt;
     write_frame := fun f => if f =? k then Some msg else None;
     exporting := fun _ => true;
     libm_log10 := ilog10 |}.

(** [self.exporting] is found cleared from frame [k] on. *)
Definition cancelled_at (k : Z) (dt : Q) : Env :=
  {| clock := steady_clock dt;
     write_frame := fun _ => None;
     exporting := fun f => f <? k;
     libm_log10 := ilog10 |}.

Definition sample_settings : settings :=
  {| vformat := "mp4"; vcodec := "libx264"; acodec := "aac";
     channels := "2"; sample_rate := "48000" |}.

(** ** The specification's vocabulary *)


(** [clamp(x, lo, hi)]. *)
Definition clamp (x lo hi : Z) : Z := Z.max lo (Z.min hi x).

(** The remaining time as the specification words it:
    [round(elapsed * frames_remaining / frames_done)]. *)
Definition seconds_remaining_spec (start_time now : Q)
    (current_frame start_frame end_frame : Z) : Z :=
  let elapsed := (now - start_time)%Q in
  let frames_remaining := end_frame - current_frame in
  let frames_done := current_frame - start_frame in
  Py.round (elapsed * inject_Z frames_remaining / inject_Z frames_done)%Q.

Inductive failure_kind : Type :=
| SinkChannelMismatch
| SinkSampleRateMismatch
| SinkFormatUnsupported
| SinkCodecUnsupported
| SinkEncodeFailure
| SinkUnknownFailure.

Definition kind_of (b : option error_marker) : failure_kind :=
  match b with
  | Some InvalidChannels => SinkChannelMismatch
  | Some InvalidSampleRate => SinkSampleRateMismatch
  | Some InvalidFormat => SinkFormatUnsupported
  | Some InvalidCodec => SinkCodecUnsupported
  | Some ErrorEncodingVideo => SinkEncodeFailure
  | None => SinkUnknownFailure
  end.

Inductive ExportOutcome : Type :=
| Completed (frames_written : Z)
| Cancelled (frames_written : Z)
| Failed (kind : failure_kind) (detail : string).

(** How a run ended, in the specification's words: the frames written are
    the [WriteFrame] calls made, the kind is the handler's arm. *)
Definition outcome_of (r : run) : ExportOutcome :=
  match exit r with
  | Exhausted => Completed (Z.of_nat (List.length (writes (events r))))
  | Break => Cancelled (Z.of_nat (List.length (writes (events r))))
  | Raised msg => Failed (kind_of (error_branch msg)) msg
  end.

(** ** More readers of events *)

(** What an iteration of the loop can emit. *)
Definition is_loop_event (ev : event) : bool :=
  match ev with
  | ExportFrame _ _ _ _ _ | ProcessEvents | WriteFrame _ => true
  | _ => false
  end.

(** What only the handler emits. *)
Definition is_handler_event (ev : event) : bool :=
  match ev with
  | LogInfo _ | TrackMetricError _ | MessageBox _ => true
  | _ => false
  end.

(** The calls that open and close an export: the writer's [Open], the
    start signal, and the three steps of the teardown. *)
Definition is_bracket (ev : event) : bool :=
  match ev with
  | WriterOpen | ExportStarted _ _ _ | ExportEnded _ | TimelineClose
  | ClearAllCache => true
  | _ => false
  end.

(** A progress signal that names the range [start_frame..end_frame] and a
    frame inside it. *)
Definition signal_in_range (start_frame end_frame : Z) (ev : event) : Prop :=
  match ev with
  | ExportFrame _ s e f _ =>
      s = start_frame /\ e = end_frame /\ start_frame <= f <= end_frame
  | _ => True
  end.

(** What the progress slot shows for a signal: a percentage between 0 and
    100 under the signal's own format, and the frame as the bar's value. *)
Definition shows_percentage (ev : event) : Prop :=
  match ev with
  | ExportFrame t s e f fmt =>
      exists v, updateProgressBar t s e f fmt
                = Ok {| bar_value := f;
                        bar_format := Formatted fmt v;
                        window_title := (Formatted fmt v, t) |}
                /\ (0 <= v <= 100)%Q
  | _ => True
  end.

(** A title that, if it shows a time, shows no negative field and minutes
    and seconds below 60. *)
Definition shows_a_time (t : title) : Prop :=
  match t with
  | TitleTime hours minutes seconds _ _ =>
      0 <= hours /\ 0 <= minutes < 60 /\ 0 <= seconds < 60
  | _ => True
  end.

(** A progress signal with such a title. *)
Definition signal_shows_a_time (ev : event) : Prop :=
  match ev with
  | ExportFrame t _ _ _ _ => shows_a_time t
  | _ => True
  end.

(** ** [convert_to_bytes]: lines 735-779 *)

(** A [str] is held as the bytes of its UTF-8 form: splitting at a space and
    looking for an ASCII needle give the same on the bytes as on the
    characters. *)

(** What the method takes from the interpreter: [str.lower], which follows
    the Unicode tables (the Kelvin sign becomes [k]), and [locale.atof],
    which follows the locale and gives a double, NaN and the infinities
    included, or raises: [None]. *)
Record Platform : Type := {
  str_lower : string -> string;
  atof : string -> option float
}.

(** [s.split(sep)] for a one-character [sep]: the pieces between the
    separators, empty pieces included. *)
Fixpoint split (sep : ascii) (s : string) : list string :=
  match s with
  | EmptyString => [EmptyString]
  | String c s' =>
      if Ascii.eqb c sep then EmptyString :: split sep s'
      else match split sep s' with
           | [] => [String c EmptyString]
           | piece :: pieces => String c piece :: pieces
           end
  end.

(** A Python number: an [int], or a [float], which is a double. *)
Inductive number : Type :=
| PyInt (n : Z)
| PyFloat (x : float).

(** The double of a small integer: exact below 2^53, so for the 0, 63 and
    255 the method compares with. *)
Definition float_of_int (n : Z) : float := PrimFloat.of_uint63 (Uint63.of_Z n).

(** [x > n] and [x < n] for an integer literal [n]: Python compares a float
    with an int by value, and nothing is above or below a NaN. *)
Definition num_gt (x : number) (n : Z) : bool :=
  match x with
  | PyInt m => m >? n
  | PyFloat f => PrimFloat.ltb (float_of_int n) f
  end.

Definition num_lt (x : number) (n : Z) : bool :=
  match x with
  | PyInt m => m <? n
  | PyFloat f => PrimFloat.ltb f (float_of_int n)
  end.

(** The double [(-1)^sign * m * 2^e] cut towards zero. *)
Definition trunc (sign : bool) (m : positive) (e : Z) : Z :=
  let magnitude := if 0 <=? e then Z.pos m * 2 ^ e else Z.pos m / 2 ^ (- e) in
  if sign then - magnitude else magnitude.

Arguments trunc : simpl never.

(** [int(x)]: [ValueError] on a NaN, [OverflowError] on an infinity. *)
Definition py_int (x : number) : result Z :=
  match x with
  | PyInt n => Ok n
  | PyFloat f =>
      match Prim2SF f with
      | S754_nan => Raise "cannot convert float NaN to integer"
      | S754_infinity _ => Raise "cannot convert float infinity to integer"
      | S754_zero _ => Ok 0
      | S754_finite sign m e => Ok (trunc sign m e)
      end
  end.

(** The two [if]s of a quality arm, lines 760-763 and 768-771: the number
    above the cap becomes the [int] cap, the number below 0 the [int] 0. *)
Definition capped (raw_number : number) (cap : Z) : number :=
  let raw_number := if num_gt raw_number cap then PyInt cap else raw_number in
  let raw_number := if num_lt raw_number 0 then PyInt 0 else raw_number in
  raw_number.

(** Lines 736-776: the warning logged, if any, and the number
    [bit_rate_bytes] holds when the [try] is left.  Only [locale.atof] can
    raise inside the [try]; the bare [except] turns that into the warning
    and leaves the initial 0. *)
Definition bit_rate_bytes (pf : Platform) (BitRateString : string)
  : option string * number :=
  match split " " (str_lower pf BitRateString) with
  | raw_number_string :: raw_measurement :: _ =>
      match atof pf raw_number_string with
      | None =>
          (Some ("Failed to convert bitrate string to bytes: " ++ BitRateString)%string,
           PyInt 0)
      | Some raw_number =>
          (None,
           if Py.contains "kb" raw_measurement
           then PyFloat (raw_number * 1000)%float
           else if Py.contains "mb" raw_measurement
           then PyFloat (raw_number * 1000 * 1000)%float
           else if Py.contains "crf" raw_measurement
                   || Py.contains "cqp" raw_measurement
           then capped (PyFloat raw_number) 63
           else if Py.contains "qp" raw_measurement
           then capped (PyFloat raw_number) 255
           else PyInt 0)
      end
  | _ => (None, PyInt 0)
  end.

(** Line 779, outside the [try]: the warning logged, if any, and the string
    returned, or the exception of [int]. *)
Definition convert_to_bytes (pf : Platform) (BitRateString : string)
  : result (option string * string) :=
  let '(warning, bytes) := bit_rate_bytes pf BitRateString in
  n <- py_int bytes ;;
  Ok (warning, Py.str n).

(** A sample platform, to run the method on ASCII text: [str.lower] as it
    acts on ASCII letters, and [locale.atof] of the C locale on "nan",
    "inf", "-inf" and plain digits below 2^63. *)
Definition lower_ascii (c : ascii) : ascii :=
  let n := nat_of_ascii c in
  if (65 <=? n)%nat && (n <=? 90)%nat then ascii_of_nat (n + 32) else c.

Fixpoint sample_lower (s : string) : string :=
  match s with
  | EmptyString => EmptyString
  | String c s' => String (lower_ascii c) (sample_lower s')
  end.

Definition sample_atof (s : string) : option float :=
  if String.eqb s "nan" then Some nan
  else if String.eqb s "inf" then Some infinity
  else if String.eqb s "-inf" then Some neg_infinity
  else match NilEmpty.uint_of_string s with
       | Some d => if Z.of_uint d <? 2 ^ 63
                   then Some (float_of_int (Z.of_uint d))
                   else None
       | None => None
       end.

Definition sample_platform : Platform :=
  {| str_lower := sample_lower; atof := sample_atof |}.

(** ** Profiles: lines 211-231, 306-316 and 648-662 *)

(** A Python [dict] from strings to strings, as its items in insertion
    order. *)
Definition dict : Type := list (string * string).

(** [d[key] = value]: a key already there keeps its place. *)
Fixpoint dict_set (d : dict) (key value : string) : dict :=
  match d with
  | [] => [(key, value)]
  | (k, v) :: d' =>
      if String.eqb k key then (k, value) :: d' else (k, v) :: dict_set d' key value
  end.

(** [getProfilePath]: the path of the first profile whose name holds
    [profile_name]; [None] when the loop ends without a [return]. *)
Fixpoint getProfilePath (profile_paths : dict) (profile_name : string)
  : option string :=
  match profile_paths with
  | [] => None
  | (profile, path) :: rest =>
      if Py.contains profile_name profile then Some path
      else getProfilePath rest profile_name
  end.

(** [getProfileName]: the name of the first profile with this path.  The
    argument may be the [None] that [getProfilePath] returned, which equals
    no path. *)
Fixpoint getProfileName (profile_paths : dict) (profile_path : option string)
  : option string :=
  match profile_paths with
  | [] => None
  | (profile, path) :: rest =>
      match profile_path with
      | Some p => if String.eqb p path then Some profile
                  else getProfileName rest profile_path
      | None => getProfileName rest profile_path
      end
  end.

(** Lines 226-231: one profile is appended to the names, stored in the
    dict, and added to the combo box under the name and the path the two
    look-ups give. *)
Definition add_profile (profile_names : list string) (profile_paths : dict)
    (cboProfile : list (option string * option string))
    (profile_name profile_path : string)
  : list string * dict * list (option string * option string) :=
  let profile_names := profile_names ++ [profile_name] in
  let profile_paths := dict_set profile_paths profile_name profile_path in
  (profile_names, profile_paths,
   cboProfile
   ++ [(getProfileName profile_paths (getProfilePath profile_paths profile_name),
        getProfilePath profile_paths profile_name)]).

(** The [for index in range(count)] searches of [getVideoProfileIndex]:
    the first index from [index] on whose item passes, -1 when none does. *)
Fixpoint first_index {A : Type} (passes : A -> bool) (items : list A) (index : Z)
  : Z :=
  match items with
  | [] => -1
  | item :: items' =>
      if passes item then index else first_index passes items' (index + 1)
  end.

(** [getVideoProfileIndex]; an item of the combo box is its text and its
    data, [key_of] is [openshot.Profile(path).Key()].  An argument counts
    when it is neither [None] nor empty; the final [None] is the implicit
    return when neither does. *)
Definition getVideoProfileIndex (key_of : string -> string)
    (cboSimpleVideoProfile : list (string * string))
    (profile_name profile_key : option string) : option Z :=
  match profile_name with
  | Some (String _ _ as name) =>
      Some (first_index (fun item => String.eqb (fst item) name)
              cboSimpleVideoProfile 0)
  | _ =>
      match profile_key with
      | Some (String _ _ as key) =>
          Some (first_index (fun item => String.eqb (key_of (snd item)) key)
                  cboSimpleVideoProfile 0)
      | _ => None
      end
  end.

(** ** Dragging files: [FilesTreeView.startDrag], lines 133-187 of
    [files_treeview.py] *)

(** What [startDrag] does: it gives up with a warning and returns [False],
    or it starts a drag with a pixmap of the given size on which the icons
    are drawn at the given x offsets (y is 0), carrying the rows given to
    [mimeData].  The hot spot is not modelled. *)
Inductive drag (icon : Type) : Type :=
| DragAborted (warning : string)
| DragStarted (width height : Z) (drawn : list (Z * icon))
              (mime_rows : list (option icon)).
Arguments DragAborted {icon} warning.
Arguments DragStarted {icon} width height drawn mime_rows.

(** [drag_item_size]: 48 by 48. *)
Definition drag_item_size : Z := 48.

(** The icons of the rows that have one. *)
Fixpoint icons_of {icon : Type} (rows : list (option icon)) : list icon :=
  match rows with
  | [] => []
  | Some i :: rows' => i :: icons_of rows'
  | None :: rows' => icons_of rows'
  end.

(** The [for idx, icon_pixmap in enumerate(icons)] loop from [idx] on. *)
Fixpoint draw_icons {icon : Type} (gap idx : Z) (icons : list icon)
  : list (Z * icon) :=
  match icons with
  | [] => []
  | i :: icons' =>
      (idx * (drag_item_size + gap), i) :: draw_icons gap (idx + 1) icons'
  end.

(** A selected row is the data of its first column under
    [Qt.DecorationRole]: an icon or [None]. *)
Definition startDrag {icon : Type} (selected : list (option icon)) : drag icon :=
  match selected with
  | [] => DragAborted "No draggable items found in model!"
  | _ =>
      let icons :=
        icons_of (firstn (Nat.min 3 (List.length selected)) selected) in
      match icons with
      | [] => DragAborted "No valid icons found for dragging!"
      | _ =>
          let gap := 1 in
          let n := Z.of_nat (List.length icons) in
          let total_width := drag_item_size * n + gap * (n - 1) in
          DragStarted total_width drag_item_size (draw_icons gap 0 icons) selected
      end
  end.

(** * Properties *)

(** ** Python primitives *)

Example round_half_even :
  Py.round (1 # 2) = 0 /\ Py.round (3 # 2) = 2 /\ Py.round (5 # 2) = 2 /\
  Py.round (999 # 1000) = 1 /\ Py.round (-(1 # 2)) = 0 /\ Py.round (-(7 # 4)) = -2.
Proof. repeat split; reflexivity. Qed.

Example contains_examples :
  Py.contains "InvalidCodec" "<InvalidCodec> codec not found" = true /\
  Py.contains "InvalidCodec" "InvalidCode" = false /\
  Py.split_head "> " "<InvalidCodec> codec not found" = "<InvalidCodec" /\
  Py.remove_char "<" "<InvalidCodec" = "InvalidCodec" /\
  Py.str 5 = "5".
Proof. repeat split; reflexivity. Qed.

Lemma Qeq_bool_inject_Z_0 (z : Z) : Qeq_bool (inject_Z z) 0 = (z =? 0).
Proof. unfold Qeq_bool; simpl. rewrite Z.mul_1_r. now destruct z. Qed.

Lemma truediv_inject_Z (x : Q) (z : Z) :
  z <> 0 -> Py.truediv x (inject_Z z) = Ok (x / inject_Z z)%Q.
Proof.
  intros Hz. unfold Py.truediv. rewrite Qeq_bool_inject_Z_0.
  now apply Z.eqb_neq in Hz as ->.
Qed.

#[global] Instance round_comp : Proper (Qeq ==> eq) Py.round.
Proof.
  intros x y Hxy. unfold Py.round.
  rewrite (Qfloor_comp x y Hxy).
  assert (H : (x - inject_Z (Qfloor y) == y - inject_Z (Qfloor y))%Q)
    by now rewrite Hxy.
  now rewrite (Qcompare_comp _ _ H (1 # 2)%Q (1 # 2)%Q (Qeq_refl _)).
Qed.

(** ** The estimator *)

Lemma digits_after_decimalpoint_total (log10 : Q -> Q) (delta : Q) :
  exists d, digits_after_decimalpoint log10 delta = Ok d /\ 1 <= d <= 5.
Proof.
  unfold digits_after_decimalpoint, Py.log10.
  destruct (Py.gt delta 0); cbn [Py.bind]; eexists; (split; [reflexivity|]).
  - destruct (Py.ceil (-2 - log10 delta) <? 1) eqn:E1.
    + cbn. lia.
    + apply Z.ltb_ge in E1.
      destruct (Py.ceil (-2 - log10 delta) >? 5) eqn:E5; [lia|].
      rewrite Z.gtb_ltb in E5. apply Z.ltb_ge in E5. lia.
  - cbn. lia.
Qed.

Lemma update_progress_total (log10 : Q -> Q) (t0 t1 t2 : Q) (s e f : Z)
    (p : progress) :
  s <> e -> exists p', update_progress log10 t0 t1 t2 s e f p = Ok p'.
Proof.
  intros Hse. unfold update_progress.
  rewrite truediv_inject_Z by lia. cbn [Py.bind].
  destruct (digits_after_decimalpoint_total log10
              (inject_Z (f - s) * 1 / inject_Z (e - s)
               - last_displayed_exported_portion p)%Q) as (d & -> & _).
  cbn [Py.bind].
  destruct (negb (f - s =? 0)) eqn:Hf; cbn [andb]; [|eauto].
  destruct (Py.ne (t1 - t0) 0) eqn:Ht; [|eauto].
  unfold seconds_left, fps_of.
  apply negb_true_iff, Z.eqb_neq in Hf.
  rewrite truediv_inject_Z by exact Hf. cbn [Py.bind].
  unfold Py.truediv. unfold Py.ne in Ht. apply negb_true_iff in Ht. rewrite Ht.
  cbn [Py.bind]. eauto.
Qed.

(** ** Reading events *)

Lemma writes_app (l1 l2 : list event) : writes (l1 ++ l2) = writes l1 ++ writes l2.
Proof.
  induction l1 as [|ev l1 IH]; [reflexivity|].
  destruct ev; cbn; now rewrite ?IH.
Qed.

Lemma signalled_app (l1 l2 : list event) :
  signalled (l1 ++ l2) = signalled l1 ++ signalled l2.
Proof.
  induction l1 as [|ev l1 IH]; [reflexivity|].
  destruct ev; cbn; now rewrite ?IH.
Qed.

Lemma last_cons {A : Type} (l : list A) (x d : A) : last (x :: l) d = last l x.
Proof.
  revert x d; induction l as [|y l IH]; intros x d; [reflexivity|].
  change (last (x :: y :: l) d) with (last (y :: l) d).
  now rewrite (IH y d), (IH y x).
Qed.

Lemma filter_none {A : Type} (f : A -> bool) (l : list A) :
  Forall (fun x => f x = false) l -> filter f l = [].
Proof.
  intros H. induction H as [|x l Hx _ IH]; [reflexivity|].
  cbn. now rewrite Hx.
Qed.

Lemma frames_from_length (start : Z) (n : nat) :
  List.length (frames_from start n) = n.
Proof. revert start; induction n; intros; cbn; auto. Qed.

Lemma frames_from_bounds (start : Z) (n : nat) :
  Forall (fun f => start <= f < start + Z.of_nat n) (frames_from start n).
Proof.
  revert start; induction n as [|n IH]; intros start; cbn [frames_from].
  - constructor.
  - constructor; [lia|].
    eapply Forall_impl; [|apply IH]. cbn; intros; lia.
Qed.

Lemma frames_from_In (start : Z) (n : nat) (f : Z) :
  start <= f < start + Z.of_nat n -> In f (frames_from start n).
Proof.
  revert start; induction n as [|n IH]; intros start Hf; [lia|].
  cbn [frames_from]. destruct (Z.eq_dec start f) as [->|Hne].
  - now left.
  - right. apply IH. lia.
Qed.

Lemma frames_from_increasing (start : Z) (n : nat) :
  StronglySorted Z.lt (frames_from start n).
Proof.
  revert start; induction n as [|n IH]; intros start; cbn [frames_from].
  - constructor.
  - constructor; [apply IH|].
    eapply Forall_impl; [|apply frames_from_bounds]. cbn; intros; lia.
Qed.

Lemma frames_from_last (start : Z) (n : nat) (d : Z) :
  last (frames_from start (S n)) d = start + Z.of_nat n.
Proof.
  revert start; induction n as [|n IH]; intros start.
  - cbn. lia.
  - change (frames_from start (S (S n)))
      with (start :: frames_from (start + 1) (S n)).
    change (last (start :: frames_from (start + 1) (S n)) d)
      with (last (frames_from (start + 1) (S n)) d).
    rewrite IH. lia.
Qed.

(** ** One iteration *)

Section Iteration.

Variable env : Env.
Variable t0 : Q.
Variables s e : Z.

Lemma display_inv (f : Z) (t : Q) (r : nat) (p : progress)
    (sig : list event) (r' : nat) (p' : progress) :
  display env t0 s e f t r p = Ok (sig, r', p') ->
  (sig = [] /\ p' = p)
  \/ (sig = [ExportFrame (title_message p') s e f (format_of_progress_string p');
             ProcessEvents]
      /\ update_progress (libm_log10 env) t0 t (clock env r) s e f p = Ok p').
Proof.
  unfold display.
  destruct (is_display_tick _ _ _ _).
  - destruct (update_progress _ _ _ _ _ _ _ _) as [q|msg]; cbn [Py.bind];
      [|discriminate].
    intros [= <- <- <-]. right. split; reflexivity.
  - intros [= <- <- <-]. now left.
Qed.

Lemma display_total (f : Z) (t : Q) (r : nat) (p : progress) :
  s <> e -> exists sig r' p', display env t0 s e f t r p = Ok (sig, r', p').
Proof.
  intros Hse. unfold display.
  destruct (is_display_tick _ _ _ _); [|eauto].
  destruct (update_progress_total (libm_log10 env) t0 t (clock env r) s e f p Hse)
    as [p' ->].
  cbn [Py.bind]. eauto.
Qed.

Lemma update_progress_title (log10 : Q -> Q) (t1 t2 : Q) (f : Z)
    (p p' : progress) :
  update_progress log10 t0 t1 t2 s e f p = Ok p' ->
  loop_title (title_message p) -> loop_title (title_message p').
Proof.
  unfold update_progress. intros H Hp.
  destruct (Py.truediv _ _); cbn [Py.bind] in H; [|discriminate].
  destruct (digits_after_decimalpoint _ _); cbn [Py.bind] in H; [|discriminate].
  destruct (negb (f - s =? 0) && Py.ne (t1 - t0) 0).
  - destruct (seconds_left _ _ _ _ _); cbn [Py.bind] in H; [|discriminate].
    destruct (fps_of _ _ _ _); cbn [Py.bind] in H; [|discriminate].
    injection H as <-. cbn.
    destruct (f =? e); cbn; auto.
  - injection H as <-. exact Hp.
Qed.

(** The ways one iteration can go. *)
Lemma frame_loop_cases (n : nat) (f : Z) (st : locals)
    (evs : list event) (ex : loop_exit) (st' : locals) :
  frame_loop env t0 s e (S n) f st = (evs, ex, st') ->
  let end_time := clock env (clock_reads st) in
  (exists msg,
      display env t0 s e f end_time (S (clock_reads st)) (shown st) = Raise msg
      /\ evs = [] /\ ex = Raised msg
      /\ st' = {| clock_reads := S (clock_reads st);
                  end_time_export := Some end_time;
                  max_frame := max_frame st; shown := shown st |})
  \/ (exists sig r p,
         display env t0 s e f end_time (S (clock_reads st)) (shown st)
         = Ok (sig, r, p)
         /\ let st1 := {| clock_reads := r; end_time_export := Some end_time;
                          max_frame := f; shown := p |} in
            (exists msg, write_frame env f = Some msg
                         /\ evs = sig ++ [WriteFrame f]
                         /\ ex = Raised msg /\ st' = st1)
            \/ (write_frame env f = None /\ exporting env f = false
                /\ evs = sig ++ [WriteFrame f] /\ ex = Break /\ st' = st1)
            \/ (write_frame env f = None /\ exporting env f = true
                /\ exists rest,
                    frame_loop env t0 s e n (f + 1) st1 = (rest, ex, st')
                    /\ evs = sig ++ WriteFrame f :: rest)).
Proof.
  intros H end_time. cbn [frame_loop] in H. fold end_time in H.
  destruct (display env t0 s e f end_time (S (clock_reads st)) (shown st))
    as [[[sig r] p]|msg].
  - right. exists sig, r, p. split; [reflexivity|]. cbn zeta.
    destruct (write_frame env f) as [msg|].
    + injection H as <- <- <-. left. eauto.
    + destruct (exporting env f).
      * destruct (frame_loop env t0 s e n (f + 1) _) as [[rest ex1] st1] eqn:E.
        injection H as <- <- <-. right; right. eauto 8.
      * injection H as <- <- <-. right; left. auto.
  - injection H as <- <- <-. left. eauto.
Qed.

End Iteration.

(** ** The frame loop *)

Section LoopFacts.

Variable env : Env.
Variable t0 : Q.
Variables s e : Z.

Lemma display_writes (f : Z) (t : Q) (r : nat) (p : progress)
    (sig : list event) (r' : nat) (p' : progress) :
  display env t0 s e f t r p = Ok (sig, r', p') ->
  writes sig = [] /\ (signalled sig = [] \/ signalled sig = [f]).
Proof.
  intros H. apply display_inv in H as [[-> _]|[-> _]]; cbn; auto.
Qed.

Lemma display_title (f : Z) (t : Q) (r : nat) (p : progress)
    (sig : list event) (r' : nat) (p' : progress) :
  display env t0 s e f t r p = Ok (sig, r', p') ->
  loop_title (title_message p) ->
  loop_title (title_message p')
  /\ Forall (fun ev => is_elapsed ev = false /\ is_close ev = false) sig.
Proof.
  intros H Hp. apply display_inv in H as [[-> ->]|[-> H]].
  - split; [exact Hp|constructor].
  - apply update_progress_title in H; [|exact Hp].
    split; [exact H|].
    repeat constructor.
    destruct (title_message p'); cbn in *; auto.
    now rewrite H.
Qed.

(** The display branch does not decide which frames are written nor how
    the loop is left, as long as it does not raise. *)
Lemma frame_loop_run (n : nat) (f : Z) (st : locals)
    (evs : list event) (ex : loop_exit) (st' : locals) :
  s <> e ->
  frame_loop env t0 s e n f st = (evs, ex, st') ->
  (writes evs, ex) = frames_run env n f.
Proof.
  intros Hse. revert f st evs ex st'.
  induction n as [|n IH]; intros f st evs ex st' H.
  - cbn in H. now injection H as <- <- <-.
  - apply frame_loop_cases in H. cbn zeta in H.
    destruct H as [(msg & Hd & _)|(sig & r & p & Hd & H)].
    + destruct (display_total env t0 s e f (clock env (clock_reads st))
                  (S (clock_reads st)) (shown st) Hse) as (? & ? & ? & Hd').
      congruence.
    + apply display_writes in Hd as [Hw _].
      cbn [frames_run].
      destruct H as [(msg & -> & -> & -> & _)
                    |[(-> & -> & -> & -> & _)
                     |(-> & -> & rest & Hrest & ->)]];
        rewrite writes_app, Hw; cbn; try reflexivity.
      apply IH in Hrest. now rewrite <- Hrest.
Qed.

(** [max_frame] is the last frame passed to [WriteFrame]. *)
Lemma frame_loop_max_frame (n : nat) (f : Z) (st : locals)
    (evs : list event) (ex : loop_exit) (st' : locals) :
  frame_loop env t0 s e n f st = (evs, ex, st') ->
  max_frame st' = last (writes evs) (max_frame st).
Proof.
  revert f st evs ex st'.
  induction n as [|n IH]; intros f st evs ex st' H.
  - cbn in H. now injection H as <- <- <-.
  - apply frame_loop_cases in H. cbn zeta in H.
    destruct H as [(msg & _ & -> & _ & ->)|(sig & r & p & Hd & H)];
      [reflexivity|].
    apply display_writes in Hd as [Hw _].
    destruct H as [(msg & _ & -> & _ & ->)
                  |[(_ & _ & -> & _ & ->)
                   |(_ & _ & rest & Hrest & ->)]];
      rewrite writes_app, Hw; cbn [writes app]; try reflexivity.
    apply IH in Hrest. rewrite Hrest. cbn [max_frame].
    now rewrite last_cons.
Qed.

(** The frames written are a run of consecutive frames from the first. *)
Lemma frame_loop_writes (n : nat) (f : Z) (st : locals)
    (evs : list event) (ex : loop_exit) (st' : locals) :
  frame_loop env t0 s e n f st = (evs, ex, st') ->
  exists m, (m <= n)%nat /\ writes evs = frames_from f m.
Proof.
  revert f st evs ex st'.
  induction n as [|n IH]; intros f st evs ex st' H.
  - cbn in H. injection H as <- <- <-. exists O. auto.
  - apply frame_loop_cases in H. cbn zeta in H.
    destruct H as [(msg & _ & -> & _ & _)|(sig & r & p & Hd & H)].
    { exists O. split; [lia|reflexivity]. }
    apply display_writes in Hd as [Hw _].
    destruct H as [(msg & _ & -> & _ & _)
                  |[(_ & _ & -> & _ & _)
                   |(_ & _ & rest & Hrest & ->)]];
      rewrite writes_app, Hw; cbn [writes app].
    + exists 1%nat. split; [lia|reflexivity].
    + exists 1%nat. split; [lia|reflexivity].
    + apply IH in Hrest as (m & Hm & ->).
      exists (S m). split; [lia|reflexivity].
Qed.

(** The signals of the loop carry strictly increasing frames, each a frame
    whose write was reached. *)
Lemma frame_loop_signalled (n : nat) (f : Z) (st : locals)
    (evs : list event) (ex : loop_exit) (st' : locals) :
  frame_loop env t0 s e n f st = (evs, ex, st') ->
  StronglySorted Z.lt (signalled evs)
  /\ Forall (fun x => f <= x < f + Z.of_nat (List.length (writes evs)))
       (signalled evs).
Proof.
  revert f st evs ex st'.
  induction n as [|n IH]; intros f st evs ex st' H.
  - cbn in H. injection H as <- <- <-. cbn. split; constructor.
  - apply frame_loop_cases in H. cbn zeta in H.
    destruct H as [(msg & _ & -> & _ & _)|(sig & r & p & Hd & H)].
    { cbn. split; constructor. }
    apply display_writes in Hd as [Hw Hs].
    assert (Hone : forall rest,
               StronglySorted Z.lt (signalled rest) ->
               Forall (fun x => f + 1 <= x
                                < f + 1 + Z.of_nat (List.length (writes rest)))
                 (signalled rest) ->
               StronglySorted Z.lt (signalled (sig ++ WriteFrame f :: rest))
               /\ Forall (fun x => f <= x < f + Z.of_nat
                            (List.length (writes (sig ++ WriteFrame f :: rest))))
                    (signalled (sig ++ WriteFrame f :: rest))).
    { intros rest Hsorted Hbound.
      rewrite signalled_app, writes_app, Hw. cbn [signalled writes app List.length].
      assert (Hb : Forall (fun x => f <= x
                                    < f + Z.of_nat (S (List.length (writes rest))))
                     (signalled rest))
        by (eapply Forall_impl; [|exact Hbound]; cbn; intros; lia).
      destruct Hs as [->| ->]; cbn [app].
      - auto.
      - split.
        + constructor; [exact Hsorted|].
          eapply Forall_impl; [|exact Hbound]. cbn; intros; lia.
        + constructor; [lia|exact Hb]. }
    destruct H as [(msg & _ & -> & _ & _)
                  |[(_ & _ & -> & _ & _)
                   |(_ & _ & rest & Hrest & ->)]].
    + apply (Hone []); constructor.
    + apply (Hone []); constructor.
    + apply IH in Hrest as [H1 H2]. now apply Hone.
Qed.

(** Inside the loop the writer is not closed and no elapsed time is
    shown. *)
Lemma frame_loop_events (n : nat) (f : Z) (st : locals)
    (evs : list event) (ex : loop_exit) (st' : locals) :
  frame_loop env t0 s e n f st = (evs, ex, st') ->
  loop_title (title_message (shown st)) ->
  Forall (fun ev => is_elapsed ev = false /\ is_close ev = false) evs.
Proof.
  revert f st evs ex st'.
  induction n as [|n IH]; intros f st evs ex st' H Hst.
  - cbn in H. injection H as <- <- <-. constructor.
  - apply frame_loop_cases in H. cbn zeta in H.
    destruct H as [(msg & _ & -> & _ & _)|(sig & r & p & Hd & H)];
      [constructor|].
    apply display_title in Hd as [Hp Hsig]; [|exact Hst].
    destruct H as [(msg & _ & -> & _ & _)
                  |[(_ & _ & -> & _ & _)
                   |(_ & _ & rest & Hrest & ->)]];
      apply Forall_app; (split; [exact Hsig|]);
      constructor; cbn; auto.
    eapply IH; [exact Hrest|exact Hp].
Qed.

(** Once an iteration has started, [end_time_export] is bound. *)
Lemma frame_loop_end_time (n : nat) (f : Z) (st : locals)
    (evs : list event) (ex : loop_exit) (st' : locals) :
  frame_loop env t0 s e n f st = (evs, ex, st') ->
  n <> O \/ end_time_export st <> None ->
  end_time_export st' <> None.
Proof.
  revert f st evs ex st'.
  induction n as [|n IH]; intros f st evs ex st' H Hn.
  - cbn in H. injection H as <- <- <-. destruct Hn; [contradiction|assumption].
  - apply frame_loop_cases in H. cbn zeta in H.
    destruct H as [(msg & _ & _ & _ & ->)|(sig & r & p & Hd & H)];
      [discriminate|].
    destruct H as [(msg & _ & _ & _ & ->)
                  |[(_ & _ & _ & _ & ->)
                   |(_ & _ & rest & Hrest & _)]]; try discriminate.
    eapply IH; [exact Hrest|]. right. discriminate.
Qed.

(** A loop that is entered and does not raise has written a frame. *)
Lemma frame_loop_written (n : nat) (f : Z) (st : locals)
    (evs : list event) (ex : loop_exit) (st' : locals) :
  frame_loop env t0 s e (S n) f st = (evs, ex, st') ->
  (forall msg, ex <> Raised msg) ->
  exists rest, writes evs = f :: rest.
Proof.
  intros H Hex. apply frame_loop_cases in H. cbn zeta in H.
  destruct H as [(msg & _ & _ & -> & _)|(sig & r & p & Hd & H)].
  { now destruct (Hex msg). }
  apply display_writes in Hd as [Hw _].
  destruct H as [(msg & _ & -> & _ & _)
                |[(_ & _ & -> & _ & _)
                 |(_ & _ & rest & _ & ->)]];
    rewrite writes_app, Hw; cbn; eauto.
Qed.

End LoopFacts.

(** ** The loop without its display branch *)

Section Runs.

Variable env : Env.

Lemma frames_run_exhausted (n : nat) (f : Z) :
  (forall x, f <= x < f + Z.of_nat n -> write_frame env x = None) ->
  (forall x, f <= x < f + Z.of_nat n -> exporting env x = true) ->
  frames_run env n f = (frames_from f n, Exhausted).
Proof.
  revert f; induction n as [|n IH]; intros f Hw Hx; [reflexivity|].
  cbn [frames_run frames_from].
  rewrite Hw, Hx by lia.
  rewrite IH; [reflexivity| |]; intros; [apply Hw|apply Hx]; lia.
Qed.

Lemma frames_run_break (n : nat) (f k : Z) :
  f <= k < f + Z.of_nat n ->
  (forall x, f <= x <= k -> write_frame env x = None) ->
  (forall x, f <= x < k -> exporting env x = true) ->
  exporting env k = false ->
  frames_run env n f = (frames_from f (Z.to_nat (k - f + 1)), Break).
Proof.
  revert f; induction n as [|n IH]; intros f Hk Hw Hx Hc; [lia|].
  cbn [frames_run]. rewrite Hw by lia.
  destruct (Z.eq_dec f k) as [->|Hne].
  - rewrite Hc. now replace (k - k + 1) with 1 by lia.
  - rewrite Hx by lia.
    rewrite (IH (f + 1)); [| lia | intros; apply Hw; lia
                           | intros; apply Hx; lia | exact Hc].
    replace (Z.to_nat (k - f + 1)) with (S (Z.to_nat (k - (f + 1) + 1))) by lia.
    reflexivity.
Qed.

Lemma frames_run_raised (n : nat) (f k : Z) (msg : string) :
  f <= k < f + Z.of_nat n ->
  (forall x, f <= x < k -> write_frame env x = None) ->
  (forall x, f <= x < k -> exporting env x = true) ->
  write_frame env k = Some msg ->
  frames_run env n f = (frames_from f (Z.to_nat (k - f + 1)), Raised msg).
Proof.
  revert f; induction n as [|n IH]; intros f Hk Hw Hx Hc; [lia|].
  cbn [frames_run].
  destruct (Z.eq_dec f k) as [->|Hne].
  - rewrite Hc. now replace (k - k + 1) with 1 by lia.
  - rewrite Hw, Hx by lia.
    rewrite (IH (f + 1)); [| lia | intros; apply Hw; lia
                           | intros; apply Hx; lia | exact Hc].
    replace (Z.to_nat (k - f + 1)) with (S (Z.to_nat (k - (f + 1) + 1))) by lia.
    reflexivity.
Qed.

End Runs.

(** ** One export *)

Lemma except_handler_quiet (cfg : settings) (msg : string) :
  writes (except_handler cfg msg) = []
  /\ signalled (except_handler cfg msg) = []
  /\ Forall (fun ev => is_close ev = false) (except_handler cfg msg).
Proof.
  unfold except_handler. destruct (error_branch msg); cbn; repeat constructor.
Qed.

(** The events of an export, by the way its loop was left. *)
Lemma export_shape (env : Env) (cfg : settings) (path : string) (s e : Z)
    (evs : list event) (ex : loop_exit) (st : locals) :
  export_loop env s e = (evs, ex, st) ->
  let r := export env cfg path s e in
  let opened := [WriterOpen; ExportStarted path s e] in
  final r = st
  /\ match ex, end_time_export st with
     | Raised msg, _ =>
         exit r = Raised msg
         /\ events r = opened ++ evs ++ except_handler cfg msg ++ teardown path
     | _, None =>
         exit r = Raised unbound_end_time
         /\ events r = opened ++ evs ++ [WriterClose]
                       ++ except_handler cfg unbound_end_time ++ teardown path
     | _, Some t =>
         exit r = ex
         /\ events r =
            opened ++ evs
            ++ [WriterClose;
                ExportFrame (titlestring (Py.round (t - clock env 0)%Q)
                               (fps_encode (shown st)) "Elapsed")
                  s e (max_frame st) (format_of_progress_string (shown st))]
            ++ teardown path
     end.
Proof.
  intros H r opened. subst r opened. unfold export. rewrite H.
  destruct ex; unfold after_loop; destruct (end_time_export st);
    cbn [events exit final]; (split; [reflexivity|]); (split; [reflexivity|]);
    rewrite <- ?app_assoc; reflexivity.
Qed.

Section ExportFacts.

Variable env : Env.
Variable cfg : settings.
Variable path : string.
Variables s e : Z.

Lemma export_writes (evs : list event) (ex : loop_exit) (st : locals) :
  export_loop env s e = (evs, ex, st) ->
  writes (events (export env cfg path s e)) = writes evs.
Proof.
  intros H. destruct (export_shape env cfg path s e evs ex st H) as [_ Hs].
  cbv zeta in Hs.
  destruct ex, (end_time_export st); destruct Hs as [_ ->];
    rewrite !writes_app;
    try (destruct (except_handler_quiet cfg unbound_end_time) as (-> & _));
    try (destruct (except_handler_quiet cfg error_type_str) as (-> & _));
    cbn; now rewrite ?app_nil_r.
Qed.

(** An export that did not raise: the loop's events, the close, the final
    signal, the teardown. *)
Lemma export_not_raised :
  (forall msg, exit (export env cfg path s e) <> Raised msg) ->
  exists evs st t,
    export_loop env s e = (evs, exit (export env cfg path s e), st)
    /\ end_time_export st = Some t
    /\ events (export env cfg path s e)
       = [WriterOpen; ExportStarted path s e] ++ evs
         ++ [WriterClose;
             ExportFrame (titlestring (Py.round (t - clock env 0)%Q)
                            (fps_encode (shown st)) "Elapsed")
               s e (max_frame st) (format_of_progress_string (shown st))]
         ++ teardown path.
Proof.
  intros Hex. destruct (export_loop env s e) as [[evs ex] st] eqn:H.
  destruct (export_shape env cfg path s e evs ex st H) as [_ Hs].
  cbv zeta in Hs.
  destruct ex, (end_time_export st) as [t|] eqn:Ht; destruct Hs as [Hx Hs];
    try (now destruct (Hex _ Hx));
    exists evs, st, t; rewrite Hx; auto.
Qed.

Lemma export_raised_in_loop (evs : list event) (msg : string) (st : locals) :
  export_loop env s e = (evs, Raised msg, st) ->
  exit (export env cfg path s e) = Raised msg
  /\ events (export env cfg path s e)
     = [WriterOpen; ExportStarted path s e] ++ evs
       ++ except_handler cfg msg ++ teardown path.
Proof.
  intros H. destruct (export_shape env cfg path s e evs _ st H) as [_ Hs].
  cbv zeta in Hs. destruct (end_time_export st); exact Hs.
Qed.

End ExportFacts.

(** ** Writes *)

Section Writes.

Variable env : Env.
Variable cfg : settings.
Variable path : string.
Variables s e : Z.

(** On a range of more than one frame the frames written and the exit of
    the export are those of the loop without its display branch. *)
Lemma export_run :
  s < e ->
  let r := export env cfg path s e in
  frames_run env (Z.to_nat (e + 1 - s)) s = (writes (events r), exit r).
Proof.
  intros Hse r. subst r.
  destruct (export_loop env s e) as [[evs ex] st] eqn:H.
  rewrite (export_writes env cfg path s e evs ex st H).
  pose proof (frame_loop_end_time env _ s e _ _ _ _ _ _ H) as Ht.
  destruct (export_shape env cfg path s e evs ex st H) as [_ Hs].
  cbv zeta in Hs.
  assert (Hx : exit (export env cfg path s e) = ex).
  { destruct (end_time_export st);
      [|exfalso; apply Ht; [left; lia|reflexivity]].
    destruct ex; apply Hs. }
  rewrite Hx. symmetry. eapply frame_loop_run; [|exact H]. lia.
Qed.

End Writes.

(** C1.  On a range with [start_frame < end_frame], when no write raises and
    [self.exporting] stays set, the export calls [WriteFrame] exactly
    [end_frame - start_frame + 1] times: once per frame, in strictly
    increasing order from [start_frame] to [end_frame]. *)
Theorem C1_every_frame_written_once_in_order
    (env : Env) (cfg : settings) (path : string) (s e : Z) :
  s < e ->
  (forall f, s <= f <= e -> write_frame env f = None) ->
  (forall f, s <= f <= e -> exporting env f = true) ->
  let ws := writes (events (export env cfg path s e)) in
  ws = frames_from s (Z.to_nat (e - s + 1))
  /\ Z.of_nat (List.length ws) = e - s + 1
  /\ StronglySorted Z.lt ws
  /\ exit (export env cfg path s e) = Exhausted.
Proof.
  intros Hse Hw Hx ws. subst ws.
  pose proof (export_run env cfg path s e Hse) as Hrun. cbv zeta in Hrun.
  rewrite frames_run_exhausted in Hrun
    by (intros; first [apply Hw; lia|apply Hx; lia]).
  injection Hrun as Hws Hexit.
  rewrite <- Hws. replace (e + 1 - s) with (e - s + 1) by lia.
  repeat split.
  - rewrite frames_from_length. lia.
  - apply frames_from_increasing.
  - now symmetry.
Qed.

Lemma C1_witness :
  1 < 1000
  /\ writes (events (export (quiet (1 # 25)) sample_settings "out.mp4" 1 1000))
     = frames_from 1 1000
  /\ exit (export (quiet (1 # 25)) sample_settings "out.mp4" 1 1000) = Exhausted.
Proof.
  split; [lia|].
  destruct (C1_every_frame_written_once_in_order
              (quiet (1 # 25)) sample_settings "out.mp4" 1 1000)
    as (Hw & _ & _ & Hx);
    [lia | reflexivity | reflexivity |].
  split; [exact Hw|exact Hx].
Defined.

(** C3.  When [self.exporting] is first found cleared after the write of
    frame [k], with [start_frame <= k < end_frame], frame [k] has been
    written, no later frame is, the loop is left by [break] and
    [k - start_frame + 1] frames were written. *)
Theorem C3_cancel_stops_after_the_write_in_flight
    (env : Env) (cfg : settings) (path : string) (s e k : Z) :
  s <= k < e ->
  (forall f, s <= f <= k -> write_frame env f = None) ->
  (forall f, s <= f < k -> exporting env f = true) ->
  exporting env k = false ->
  let r := export env cfg path s e in
  writes (events r) = frames_from s (Z.to_nat (k - s + 1))
  /\ In k (writes (events r))
  /\ (forall f, In f (writes (events r)) -> f <= k)
  /\ exit r = Break
  /\ outcome_of r = Cancelled (k - s + 1).
Proof.
  intros Hk Hw Hx Hc r. subst r.
  assert (Hrun := export_run env cfg path s e ltac:(lia)). cbv zeta in Hrun.
  rewrite (frames_run_break env _ s k) in Hrun by (auto; lia).
  injection Hrun as Hws Hexit. symmetry in Hexit.
  rewrite <- Hws.
  pose proof (frames_from_bounds s (Z.to_nat (k - s + 1))) as Hb.
  rewrite Forall_forall in Hb.
  repeat split.
  - apply frames_from_In. lia.
  - intros f Hf. apply Hb in Hf. lia.
  - exact Hexit.
  - unfold outcome_of. rewrite Hexit, <- Hws, frames_from_length.
    f_equal. lia.
Qed.

Lemma C3_witness :
  1 <= 51 < 200
  /\ exporting (cancelled_at 51 (1 # 25)) 50 = true
  /\ exporting (cancelled_at 51 (1 # 25)) 51 = false
  /\ outcome_of (export (cancelled_at 51 (1 # 25)) sample_settings "out.mp4" 1 200)
     = Cancelled 51.
Proof.
  split; [lia|]. split; [reflexivity|]. split; [reflexivity|].
  refine (proj2 (proj2 (proj2 (proj2
    (C3_cancel_stops_after_the_write_in_flight
       (cancelled_at 51 (1 # 25)) sample_settings "out.mp4" 1 200 51 _ _ _ _))))).
  - lia.
  - reflexivity.
  - intros f Hf. cbn. apply Z.ltb_lt. lia.
  - reflexivity.
Defined.

(** C10.  In every iteration the frame is passed to [WriteFrame] whatever
    [self.exporting] holds, which is read only afterwards; so an export that
    is not turned away passes [start_frame] to [WriteFrame] first, and when
    that write returns with [self.exporting] already cleared exactly that
    one frame has been written. *)
Theorem C10_write_precedes_the_poll
    (env : Env) (cfg : settings) (path : string) (s e : Z) :
  s <= e ->
  snd (accept env cfg path s e) <> None ->
  let r := export env cfg path s e in
  (exists rest, writes (events r) = s :: rest)
  /\ 1 <= Z.of_nat (List.length (writes (events r)))
  /\ (write_frame env s = None -> exporting env s = false ->
      writes (events r) = [s] /\ outcome_of r = Cancelled 1)
  /\ (forall n f st evs ex st',
         frame_loop env (clock env 0) s e (S n) f st = (evs, ex, st') ->
         exists rest, writes evs = f :: rest).
Proof.
  intros Hle Hacc r. subst r.
  assert (Hse : s < e).
  { unfold accept in Hacc. destruct (s =? e) eqn:E; [now cbn in Hacc|].
    apply Z.eqb_neq in E. lia. }
  pose proof (export_run env cfg path s e Hse) as Hrun. cbv zeta in Hrun.
  replace (Z.to_nat (e + 1 - s)) with (S (Z.to_nat (e - s))) in Hrun by lia.
  cbn [frames_run] in Hrun.
  assert (Hhead : exists rest, writes (events (export env cfg path s e)) = s :: rest).
  { destruct (write_frame env s); [injection Hrun as <- _; eauto|].
    destruct (exporting env s); [|injection Hrun as <- _; eauto].
    destruct (frames_run env _ _) as [? ?]. injection Hrun as <- _; eauto. }
  split; [exact Hhead|]. split; [|split].
  - destruct Hhead as [rest ->]. cbn [List.length]. lia.
  - intros Hw Hx. rewrite Hw, Hx in Hrun. injection Hrun as Hws Hexit.
    split; [now rewrite <- Hws|].
    unfold outcome_of. now rewrite <- Hexit, <- Hws.
  - intros n f st evs ex' st' H.
    pose proof (frame_loop_run env _ s e _ _ _ _ _ _ (Z.lt_neq _ _ Hse) H) as Hr.
    cbn [frames_run] in Hr.
    destruct (write_frame env f); [injection Hr as -> _; eauto|].
    destruct (exporting env f); [|injection Hr as -> _; eauto].
    destruct (frames_run env n (f + 1)) as [? ?]. injection Hr as -> _; eauto.
Qed.

Lemma C10_witness :
  1 <= 200
  /\ exporting (cancelled_at 1 (1 # 25)) 1 = false
  /\ writes (events (export (cancelled_at 1 (1 # 25)) sample_settings "out.mp4" 1 200))
     = [1]
  /\ outcome_of (export (cancelled_at 1 (1 # 25)) sample_settings "out.mp4" 1 200)
     = Cancelled 1.
Proof.
  split; [lia|]. split; [reflexivity|].
  refine (proj1 (proj2 (proj2
    (C10_write_precedes_the_poll
       (cancelled_at 1 (1 # 25)) sample_settings "out.mp4" 1 200 _ _))) _ _).
  - lia.
  - discriminate.
  - reflexivity.
  - reflexivity.
Defined.

(** ** Signals *)

Lemma sorted_snoc (l : list Z) (a : Z) :
  StronglySorted Z.lt l -> Forall (fun x => x <= a) l ->
  StronglySorted Z.le (l ++ [a]).
Proof.
  induction 1 as [|x l Hl IH Hx]; intros Ha; cbn.
  - repeat constructor.
  - inversion Ha as [|? ? Hxa Hla]; subst.
    constructor; [now apply IH|].
    apply Forall_app. split; [|now repeat constructor].
    eapply Forall_impl; [|exact Hx]. cbn; intros; lia.
Qed.

Lemma sorted_lt_le (l : list Z) : StronglySorted Z.lt l -> StronglySorted Z.le l.
Proof.
  induction 1 as [|x l Hl IH Hx]; constructor; [exact IH|].
  eapply Forall_impl; [|exact Hx]. cbn; intros; lia.
Qed.

(** The signals of the loop do not pass the last frame written. *)
Lemma frame_loop_signalled_le (env : Env) (t0 : Q) (s e : Z) (n : nat) (f : Z)
    (st : locals) (evs : list event) (ex : loop_exit) (st' : locals) :
  frame_loop env t0 s e n f st = (evs, ex, st') ->
  Forall (fun x => x <= max_frame st') (signalled evs).
Proof.
  intros H.
  destruct (frame_loop_signalled env t0 s e _ _ _ _ _ _ H) as [_ Hb].
  rewrite (frame_loop_max_frame env t0 s e _ _ _ _ _ _ H).
  destruct (frame_loop_writes env t0 s e _ _ _ _ _ _ H) as (m & _ & Hm).
  rewrite Hm in *. rewrite frames_from_length in Hb.
  destruct m as [|m].
  - eapply Forall_impl; [|exact Hb]. cbn; intros; lia.
  - rewrite frames_from_last.
    eapply Forall_impl; [|exact Hb]. cbn; intros; lia.
Qed.

(** C4.  After a loop that ran out or was left by [break], the writer is
    closed and exactly one more progress signal is sent: it is the only
    signal of the export with an "Elapsed" title (so not a "Remaining" one),
    and its frame is the last frame passed to [WriteFrame], whichever frames
    the throttle displayed. *)
Theorem C4_one_final_elapsed_signal
    (env : Env) (cfg : settings) (path : string) (s e : Z) :
  let r := export env cfg path s e in
  exit r = Exhausted \/ exit r = Break ->
  exists evs hours minutes seconds fps fmt last_written,
    let final_signal :=
      ExportFrame (TitleTime hours minutes seconds "Elapsed" fps)
        s e last_written fmt in
    events r = [WriterOpen; ExportStarted path s e] ++ evs
               ++ [WriterClose; final_signal] ++ teardown path
    /\ Forall (fun ev => is_elapsed ev = false /\ is_close ev = false) evs
    /\ filter is_elapsed (events r) = [final_signal]
    /\ is_remaining final_signal = false
    /\ writes (events r) <> []
    /\ last (writes (events r)) 0 = last_written.
Proof.
  intros r Hexit. subst r.
  destruct (export_not_raised env cfg path s e) as (evs & st & t & Hloop & Ht & Hev).
  { intros msg Hm. rewrite Hm in Hexit. now destruct Hexit. }
  pose proof (frame_loop_events env _ s e _ _ _ _ _ _ Hloop I) as Hin.
  pose proof (frame_loop_max_frame env _ s e _ _ _ _ _ _ Hloop) as Hmax.
  cbn [initial_locals max_frame] in Hmax.
  rewrite (export_writes env cfg path s e _ _ _ Hloop).
  unfold titlestring in Hev.
  do 7 eexists. cbv zeta.
  split; [exact Hev|]. split; [exact Hin|]. split; [|split; [reflexivity|split]].
  - rewrite Hev. cbn [app filter is_elapsed].
    rewrite filter_app. cbn.
    rewrite (filter_none is_elapsed evs); [reflexivity|].
    eapply Forall_impl; [|exact Hin]. now intros ev [? _].
  - unfold export_loop in Hloop.
    destruct (Z.to_nat (e + 1 - s)) as [|n] eqn:En.
    + cbn in Hloop. injection Hloop as _ _ <-. discriminate.
    + destruct (frame_loop_written env _ s e _ _ _ _ _ _ Hloop) as [rest ->];
        [|discriminate].
      intros msg Hm. rewrite Hm in Hexit. now destruct Hexit.
  - symmetry. exact Hmax.
Qed.

Lemma C4_witness :
  exit (export (cancelled_at 2 (1 # 10)) sample_settings "out.mp4" 1 5) = Break
  /\ exists evs hours minutes seconds fps fmt,
       events (export (cancelled_at 2 (1 # 10)) sample_settings "out.mp4" 1 5)
       = [WriterOpen; ExportStarted "out.mp4" 1 5] ++ evs
         ++ [WriterClose;
             ExportFrame (TitleTime hours minutes seconds "Elapsed" fps) 1 5 2 fmt]
         ++ teardown "out.mp4".
Proof.
  split; [reflexivity|].
  destruct (C4_one_final_elapsed_signal
              (cancelled_at 2 (1 # 10)) sample_settings "out.mp4" 1 5
              (or_intror eq_refl))
    as (evs & h & m & sec & fps & fmt & lw & Hev & _ & _ & _ & _ & Hl).
  exists evs, h, m, sec, fps, fmt.
  rewrite Hev. vm_compute in Hl. now rewrite <- Hl.
Defined.

(** C6, as stated, fails: on the range 1..2 every frame is a display tick
    ([progressstep] is 1), so frame 2 is signalled by the loop and again by
    the final signal. *)
Lemma C6_counterexample :
  signalled (events (export (quiet 0) sample_settings "out.mp4" 1 2)) = [1; 2; 2]
  /\ ~ StronglySorted Z.lt
         (signalled (events (export (quiet 0) sample_settings "out.mp4" 1 2))).
Proof.
  assert (H : signalled (events (export (quiet 0) sample_settings "out.mp4" 1 2))
              = [1; 2; 2]) by (vm_compute; reflexivity).
  split; [exact H|].
  rewrite H. intros Hs.
  inversion Hs as [|? ? Hs1 _]; subst.
  inversion Hs1 as [|? ? _ Hf]; subst.
  inversion Hf as [|? ? Hlt _]; subst.
  lia.
Qed.

(** C6, amended.  The frames of the progress signals never decrease.  Those
    sent by the loop are strictly increasing; an export whose loop ran out
    or was left by [break] then sends one final signal with the last frame
    written, whether or not the throttle displayed that frame (so that
    frame may be signalled twice); an export that raised sends none. *)
Theorem C6_signals_in_order_and_last_frame_signalled
    (env : Env) (cfg : settings) (path : string) (s e : Z) :
  let r := export env cfg path s e in
  exists in_loop final,
    signalled (events r) = in_loop ++ final
    /\ StronglySorted Z.lt in_loop
    /\ StronglySorted Z.le (signalled (events r))
    /\ match exit r with
       | Raised _ => final = []
       | _ => final = [last (writes (events r)) 0] /\ writes (events r) <> []
       end.
Proof.
  intros r. subst r.
  destruct (export_loop env s e) as [[evs ex] st] eqn:Hloop.
  destruct (frame_loop_signalled env _ s e _ _ _ _ _ _ Hloop) as [Hlt _].
  pose proof (frame_loop_signalled_le env _ s e _ _ _ _ _ _ Hloop) as Hle.
  pose proof (frame_loop_max_frame env _ s e _ _ _ _ _ _ Hloop) as Hmax.
  cbn [initial_locals max_frame] in Hmax.
  pose proof (export_writes env cfg path s e _ _ _ Hloop) as Hw.
  destruct (export_shape env cfg path s e evs ex st Hloop) as [_ Hs].
  cbv zeta in Hs.
  assert (Hraised : forall msg pre,
             exit (export env cfg path s e) = Raised msg ->
             signalled pre = [] ->
             events (export env cfg path s e)
             = [WriterOpen; ExportStarted path s e] ++ evs ++ pre
               ++ except_handler cfg msg ++ teardown path ->
             exists in_loop final,
               signalled (events (export env cfg path s e)) = in_loop ++ final
               /\ StronglySorted Z.lt in_loop
               /\ StronglySorted Z.le (signalled (events (export env cfg path s e)))
               /\ match exit (export env cfg path s e) with
                  | Raised _ => final = []
                  | _ => final = [last (writes (events (export env cfg path s e))) 0]
                         /\ writes (events (export env cfg path s e)) <> []
                  end).
  { intros msg pre Hx Hpre Hev.
    assert (Hsig : signalled (events (export env cfg path s e)) = signalled evs).
    { rewrite Hev, !signalled_app, Hpre.
      destruct (except_handler_quiet cfg msg) as (_ & -> & _).
      cbn. now rewrite app_nil_r. }
    exists (signalled evs), []. rewrite Hx, Hsig, app_nil_r.
    auto using sorted_lt_le. }
  destruct ex as [| |msg].
  1,2: destruct (end_time_export st) as [t|] eqn:Ht; destruct Hs as [Hx Hev];
    [|apply (Hraised unbound_end_time [WriterClose] Hx eq_refl Hev)].
  3: apply (Hraised msg [] (proj1 Hs) eq_refl (proj2 Hs)).
  all: assert (Hsig : signalled (events (export env cfg path s e))
                      = signalled evs ++ [max_frame st])
         by (rewrite Hev, !signalled_app; cbn; reflexivity);
       exists (signalled evs), [max_frame st];
       rewrite Hx, Hsig, Hw, <- Hmax;
       (split; [reflexivity|]); (split; [exact Hlt|]);
       (split; [now apply sorted_snoc|]); (split; [reflexivity|]);
       unfold export_loop in Hloop;
       destruct (Z.to_nat (e + 1 - s)) as [|n] eqn:En;
       [cbn in Hloop;
        assert (Hst : initial_locals env = st) by congruence;
        rewrite <- Hst in Ht; discriminate Ht|];
       destruct (frame_loop_written env _ s e _ _ _ _ _ _ Hloop) as [rest ->];
       discriminate.
Qed.

(** ** A write that raises *)

(** When the loop raises, the handler and the teardown run; [w.Close()],
    which follows the loop inside the [try], is never reached. *)
Lemma raised_in_loop_skips_close (env : Env) (cfg : settings) (path : string)
    (s e : Z) (evs : list event) (msg : string) (st : locals) :
  export_loop env s e = (evs, Raised msg, st) ->
  filter is_close (events (export env cfg path s e)) = [].
Proof.
  intros H.
  destruct (export_raised_in_loop env cfg path s e evs msg st H) as [_ ->].
  pose proof (frame_loop_events env _ s e _ _ _ _ _ _ H I) as Hin.
  destruct (except_handler_quiet cfg msg) as (_ & _ & Hh).
  rewrite !filter_app.
  rewrite (filter_none is_close (except_handler cfg msg) Hh).
  rewrite (filter_none is_close evs); [reflexivity|].
  eapply Forall_impl; [|exact Hin]. now intros ev [_ ?].
Qed.

(** C2 fails on the code: the writer raises a channel mismatch at frame 5 of
    the range 1..100.  Frames 1..5 were passed to [WriteFrame], the writer
    is never closed, and the error dialog is shown before the timeline is
    closed and its cache cleared. *)
Theorem C2_writer_left_open_when_a_write_raises :
  let msg := "<InvalidChannels> channel mismatch" in
  let r := export (failing_at 5 msg (1 # 25)) sample_settings "out.mp4" 1 100 in
  exit r = Raised msg
  /\ writes (events r) = [1; 2; 3; 4; 5]
  /\ filter is_close (events r) = []
  /\ exists before,
       events r
       = before
         ++ [MessageBox ("Sorry, there was an error exporting your video: "
                         ++ newline ++ "InvalidChannels");
             ExportEnded "out.mp4"; TimelineClose; ClearAllCache]
       /\ ~ In TimelineClose before /\ ~ In ClearAllCache before.
Proof.
  cbv zeta.
  split; [vm_compute; reflexivity|].
  split; [vm_compute; reflexivity|].
  split; [vm_compute; reflexivity|].
  exists (firstn 20 (events (export (failing_at 5 "<InvalidChannels> channel mismatch"
                                        (1 # 25))
                                sample_settings "out.mp4" 1 100))).
  split; [vm_compute; reflexivity|].
  split; vm_compute; intros H;
    repeat (destruct H as [H|H]; [discriminate H|]); exact H.
Qed.

(** ** The estimate *)

Lemma gt_iff (x y : Q) : Py.gt x y = true <-> (y < x)%Q.
Proof.
  unfold Py.gt. rewrite negb_true_iff, <- not_true_iff_false, Qle_bool_iff.
  split; [apply Qnot_le_lt|apply Qlt_not_le].
Qed.




(** On a display tick the digit count is taken at the difference between
    the portion now exported and the portion last displayed, and it is what
    the progress format carries. *)
Lemma update_progress_digits (log10 : Q -> Q) (t0 t1 t2 : Q) (s e f : Z)
    (p p' : progress) :
  update_progress log10 t0 t1 t2 s e f p = Ok p' ->
  exists portion d,
    Py.truediv (inject_Z (f - s) * 1)%Q (inject_Z (e - s)) = Ok portion
    /\ digits_after_decimalpoint log10
         (portion - last_displayed_exported_portion p)%Q = Ok d
    /\ format_of_progress_string p' = progress_format d
    /\ last_displayed_exported_portion p' = portion
    /\ last_exported_time p' = t2.
Proof.
  unfold update_progress. intros H.
  destruct (Py.truediv _ _) as [portion|]; cbn [Py.bind] in H; [|discriminate].
  destruct (digits_after_decimalpoint _ _) as [d|] eqn:Ed; cbn [Py.bind] in H;
    [|discriminate].
  exists portion, d. split; [reflexivity|]. split; [exact Ed|].
  destruct (negb (f - s =? 0) && Py.ne (t1 - t0) 0).
  - destruct (seconds_left _ _ _ _ _); cbn [Py.bind] in H; [|discriminate].
    destruct (fps_of _ _ _ _); cbn [Py.bind] in H; [|discriminate].
    injection H as <-. cbn. auto.
  - injection H as <-. cbn. auto.
Qed.

(** C8.  For a frame past the first and a clock that has not gone back, the
    remaining time the code computes,
    [round((start_time - now) * (frame - end_frame) / (frame - start_frame))],
    is [round(elapsed * frames_remaining / frames_done)]. *)
Theorem C8_seconds_left_is_elapsed_times_remaining_over_done
    (start_time now : Q) (current_frame start_frame end_frame : Z) :
  start_frame < current_frame ->
  (start_time <= now)%Q ->
  seconds_left start_time now current_frame start_frame end_frame
  = Ok (seconds_remaining_spec start_time now current_frame start_frame end_frame).
Proof.
  intros Hf _. unfold seconds_left, seconds_remaining_spec.
  rewrite truediv_inject_Z by lia. cbn [Py.bind]. f_equal.
  apply round_comp.
  assert (H : (inject_Z (end_frame - current_frame)
               == - inject_Z (current_frame - end_frame))%Q).
  { rewrite <- inject_Z_opp.
    now replace (- (current_frame - end_frame)) with (end_frame - current_frame)
      by lia. }
  rewrite H. unfold Qdiv. ring.
Qed.

Lemma C8_witness :
  1 < 26 /\ (0 <= 10)%Q
  /\ seconds_left 0 10 26 1 101 = Ok (seconds_remaining_spec 0 10 26 1 101)
  /\ seconds_remaining_spec 0 10 26 1 101 = 30.
Proof.
  split; [lia|]. split; [discriminate|]. split; [|reflexivity].
  apply C8_seconds_left_is_elapsed_times_remaining_over_done;
    [lia|discriminate].
Defined.

(** ** Failures *)

Lemma kind_of_injective (b1 b2 : option error_marker) :
  kind_of b1 = kind_of b2 -> b1 = b2.
Proof.
  destruct b1 as [[]|], b2 as [[]|]; cbn; intros H;
    first [reflexivity|discriminate H].
Qed.


Lemma split_head_absent (sep s : string) :
  Py.contains sep s = false -> Py.split_head sep s = s.
Proof.
  induction s as [|c s IH]; cbn [Py.contains Py.split_head].
  - now destruct (String.prefix sep "").
  - destruct (String.prefix sep (String c s)); [discriminate|].
    intros H. now rewrite IH.
Qed.

Lemma remove_char_absent (c : ascii) (s : string) :
  Py.contains (String c "") s = false -> Py.remove_char c s = s.
Proof.
  induction s as [|c' s IH]; [reflexivity|].
  cbn [Py.contains Py.remove_char String.prefix].
  destruct (Ascii.ascii_dec c c') as [->|Hne].
  - destruct (Ascii.ascii_dec c' c'); [|contradiction].
    now destruct s.
  - destruct (Ascii.ascii_dec c c'); [contradiction|].
    apply Ascii.eqb_neq in Hne. rewrite Hne.
    intros H. now rewrite IH.
Qed.

(** The dialog shows the message itself when it holds neither ["> "] nor
    ["<"]. *)
Lemma friendly_error_plain (msg : string) :
  Py.contains "> " msg = false -> Py.contains "<" msg = false ->
  friendly_error msg = msg.
Proof.
  intros H1 H2. unfold friendly_error.
  rewrite split_head_absent by exact H1.
  now apply remove_char_absent.
Qed.

(** An export that raised ran the handler on the message, then the
    teardown. *)
Lemma export_raised (env : Env) (cfg : settings) (path : string) (s e : Z)
    (msg : string) :
  exit (export env cfg path s e) = Raised msg ->
  exists before,
    events (export env cfg path s e)
    = before ++ except_handler cfg msg ++ teardown path.
Proof.
  intros Hx.
  destruct (export_loop env s e) as [[evs ex] st] eqn:Hloop.
  destruct (export_shape env cfg path s e evs ex st Hloop) as [_ Hs].
  cbv zeta in Hs.
  destruct ex, (end_time_export st); destruct Hs as [Hx' ->];
    rewrite Hx' in Hx; try discriminate Hx; injection Hx as <-.
  - exists ([WriterOpen; ExportStarted path s e] ++ evs ++ [WriterClose]).
    now rewrite <- !app_assoc.
  - exists ([WriterOpen; ExportStarted path s e] ++ evs ++ [WriterClose]).
    now rewrite <- !app_assoc.
  - exists ([WriterOpen; ExportStarted path s e] ++ evs).
    now rewrite <- !app_assoc.
  - exists ([WriterOpen; ExportStarted path s e] ++ evs).
    now rewrite <- !app_assoc.
Qed.








Example unknown_failure_keeps_its_message :
  except_handler sample_settings "disk full"
  = [LogInfo "Error type string: disk full";
     MessageBox ("Sorry, there was an error exporting your video: "
                 ++ newline ++ "disk full")]
  /\ kind_of (error_branch "disk full") = SinkUnknownFailure.
Proof. split; reflexivity. Qed.

Example channel_mismatch_at_frame_5 :
  let r := export (failing_at 5 "<InvalidChannels> channel mismatch" (1 # 25))
             sample_settings "out.mp4" 1 100 in
  outcome_of r = Failed SinkChannelMismatch "<InvalidChannels> channel mismatch"
  /\ writes (events r) = [1; 2; 3; 4; 5].
Proof. split; vm_compute; reflexivity. Qed.

(** ** The fraction *)

(** C9, as stated, fails: a range of a single frame is not exported and
    reports no fraction at all, [accept] answers it with the invalid-range
    dialog; and the loop's own fraction has no guard, it raises on such a
    range. *)
Lemma C9_counterexample :
  accept (quiet 1) sample_settings "out.mp4" 7 7
  = ([MessageBox "Sorry, please select a valid range of frames to export"], None)
  /\ signalled (fst (accept (quiet 1) sample_settings "out.mp4" 7 7)) = []
  /\ update_progress ilog10 0 1 1 7 7 7 (shown (initial_locals (quiet 1)))
     = Raise "float division by zero".
Proof. split; [reflexivity|split; reflexivity]. Qed.

(** C9, amended.  The fraction of the loop (line 1039) has no guard of its
    own: on a range of a single frame it raises [ZeroDivisionError].  What
    keeps it from a zero divisor is [accept], which turns a range with
    [start_frame = end_frame] away with the invalid-range dialog before
    anything is exported or signalled; for every other range the display
    tick divides by a non-zero number and does not raise.  Only the progress
    slot guards its own fraction: it divides when
    [end_frame - start_frame > 0] and shows "100%%" otherwise, so it never
    raises. *)
Theorem C9_single_frame_range_is_turned_away :
  (forall env cfg path s,
      accept env cfg path s s
      = ([MessageBox "Sorry, please select a valid range of frames to export"],
         None))
  /\ (forall log10 t0 t1 t2 s f p,
         update_progress log10 t0 t1 t2 s s f p = Raise "float division by zero")
  /\ (forall log10 t0 t1 t2 s e f p,
         s <> e -> exists p', update_progress log10 t0 t1 t2 s e f p = Ok p')
  /\ (forall t s e cur fmt,
         e - s <= 0 ->
         updateProgressBar t s e cur fmt
         = Ok {| bar_value := cur;
                 bar_format := Literal "100%";
                 window_title := (Literal "100%", t) |})
  /\ (forall t s e cur fmt,
         0 < e - s ->
         updateProgressBar t s e cur fmt
         = Ok {| bar_value := cur;
                 bar_format :=
                   Formatted fmt (inject_Z (cur - s) / inject_Z (e - s) * 100)%Q;
                 window_title :=
                   (Formatted fmt (inject_Z (cur - s) / inject_Z (e - s) * 100)%Q,
                    t) |}).
Proof.
  repeat match goal with |- _ /\ _ => split end.
  - intros env cfg path s. unfold accept. now rewrite Z.eqb_refl.
  - intros log10 t0 t1 t2 s f p. unfold update_progress, Py.truediv.
    now rewrite Qeq_bool_inject_Z_0, Z.sub_diag.
  - intros. now apply update_progress_total.
  - intros t s e cur fmt H. unfold updateProgressBar.
    assert (Hg : (e - s >? 0) = false)
      by (rewrite Z.gtb_ltb; apply Z.ltb_ge; lia).
    now rewrite Hg.
  - intros t s e cur fmt H. unfold updateProgressBar, truediv_int.
    assert (Hg : (e - s >? 0) = true)
      by (rewrite Z.gtb_ltb; apply Z.ltb_lt; lia).
    assert (Hz : (e - s =? 0) = false) by (apply Z.eqb_neq; lia).
    now rewrite Hg, Hz.
Qed.

Lemma C9_witness :
  1 <> 100
  /\ (exists p', update_progress ilog10 0 1 1 1 100 50
                   (shown (initial_locals (quiet 1))) = Ok p')
  /\ 7 - 7 <= 0
  /\ updateProgressBar TitleEmpty 7 7 7 "%4.1f%% "
     = Ok {| bar_value := 7;
             bar_format := Literal "100%";
             window_title := (Literal "100%", TitleEmpty) |}.
Proof.
  split; [discriminate|].
  split.
  - apply (proj1 (proj2 (proj2 C9_single_frame_range_is_turned_away))).
    discriminate.
  - split; [lia|].
    apply (proj1 (proj2 (proj2 (proj2 C9_single_frame_range_is_turned_away)))).
    lia.
Defined.

(** Entered with a single-frame range, the export would raise at its first
    display tick: the guard of the loop's fraction is the one in [accept]. *)
Example single_frame_range_inside_export :
  exit (export (quiet 1) sample_settings "out.mp4" 7 7)
  = Raised "float division by zero"
  /\ writes (events (export (quiet 1) sample_settings "out.mp4" 7 7)) = [].
Proof. split; vm_compute; reflexivity. Qed.

(** An empty range closes the writer and then fails on the unbound
    [end_time_export]. *)
Example empty_range_inside_export :
  exit (export (quiet 1) sample_settings "out.mp4" 3 1) = Raised unbound_end_time.
Proof. vm_compute; reflexivity. Qed.

(** ** Scenarios *)

Example range_1_1000 :
  progressstep 1 1000 = 1
  /\ List.length (writes (events (export (quiet (1 # 25)) sample_settings
                                    "out.mp4" 1 1000))) = 1000%nat
  /\ last (signalled (events (export (quiet (1 # 25)) sample_settings
                                "out.mp4" 1 1000))) 0 = 1000.
Proof. repeat split; vm_compute; reflexivity. Qed.

Example progressstep_at_least_1 (s e : Z) : 1 <= progressstep s e.
Proof. unfold progressstep. lia. Qed.

Example throttled_range :
  progressstep 1 1503 = 2
  /\ firstn 3 (signalled (events (export (quiet (1 # 100)) sample_settings
                                    "out.mp4" 1 1503))) = [2; 4; 6]
  /\ skipn 750 (signalled (events (export (quiet (1 # 100)) sample_settings
                                      "out.mp4" 1 1503))) = [1502; 1503].
Proof. repeat split; vm_compute; reflexivity. Qed.

(** * Further properties of the export *)

(** ** What the loop emits *)

Section LoopEvents.

Variable env : Env.
Variable t0 : Q.
Variables s e : Z.

Lemma display_loop_events (f : Z) (t : Q) (r : nat) (p : progress)
    (sig : list event) (r' : nat) (p' : progress) :
  display env t0 s e f t r p = Ok (sig, r', p') ->
  Forall (fun ev => is_loop_event ev = true) sig
  /\ (s <= f <= e -> Forall (signal_in_range s e) sig).
Proof.
  intros H. apply display_inv in H as [[-> _]|[-> _]].
  - split; [constructor|intros; constructor].
  - split; [repeat constructor|].
    intros Hf. constructor; [cbn; auto|].
    constructor; [exact I|constructor].
Qed.

Lemma frame_loop_loop_events (n : nat) (f : Z) (st : locals)
    (evs : list event) (ex : loop_exit) (st' : locals) :
  frame_loop env t0 s e n f st = (evs, ex, st') ->
  Forall (fun ev => is_loop_event ev = true) evs.
Proof.
  revert f st evs ex st'.
  induction n as [|n IH]; intros f st evs ex st' H.
  - cbn in H. injection H as <- <- <-. constructor.
  - apply frame_loop_cases in H. cbn zeta in H.
    destruct H as [(msg & _ & -> & _ & _)|(sig & r & p & Hd & H)];
      [constructor|].
    apply display_loop_events in Hd as [Hsig _].
    destruct H as [(msg & _ & -> & _ & _)
                  |[(_ & _ & -> & _ & _)
                   |(_ & _ & rest & Hrest & ->)]];
      apply Forall_app; (split; [exact Hsig|]);
      constructor; cbn; auto.
    eapply IH; exact Hrest.
Qed.

Lemma frame_loop_signals_in_range (n : nat) (f : Z) (st : locals)
    (evs : list event) (ex : loop_exit) (st' : locals) :
  frame_loop env t0 s e n f st = (evs, ex, st') ->
  s <= f -> f + Z.of_nat n <= e + 1 ->
  Forall (signal_in_range s e) evs.
Proof.
  revert f st evs ex st'.
  induction n as [|n IH]; intros f st evs ex st' H Hlo Hhi.
  - cbn in H. injection H as <- <- <-. constructor.
  - apply frame_loop_cases in H. cbn zeta in H.
    destruct H as [(msg & _ & -> & _ & _)|(sig & r & p & Hd & H)];
      [constructor|].
    apply display_loop_events in Hd as [_ Hsig].
    specialize (Hsig ltac:(lia)).
    destruct H as [(msg & _ & -> & _ & _)
                  |[(_ & _ & -> & _ & _)
                   |(_ & _ & rest & Hrest & ->)]];
      apply Forall_app; (split; [exact Hsig|]);
      constructor; cbn; auto.
    eapply IH; [exact Hrest|lia|lia].
Qed.

End LoopEvents.

(** X1.  Whatever the surroundings do, the frames passed to [WriteFrame]
    are a run [start_frame, start_frame + 1, ...] that stops at or before
    [end_frame]: no frame outside the range, none skipped, none written
    twice. *)
Theorem writes_are_a_prefix_of_the_range
    (env : Env) (cfg : settings) (path : string) (s e : Z) :
  exists m,
    (m <= Z.to_nat (e + 1 - s))%nat
    /\ writes (events (export env cfg path s e)) = frames_from s m
    /\ Forall (fun f => s <= f <= e) (writes (events (export env cfg path s e)))
    /\ StronglySorted Z.lt (writes (events (export env cfg path s e))).
Proof.
  destruct (export_loop env s e) as [[evs ex] st] eqn:Hloop.
  rewrite (export_writes env cfg path s e _ _ _ Hloop).
  destruct (frame_loop_writes env _ s e _ _ _ _ _ _ Hloop) as (m & Hm & ->).
  exists m. split; [exact Hm|]. split; [reflexivity|]. split.
  - eapply Forall_impl; [|apply frames_from_bounds]. cbn; intros; lia.
  - apply frames_from_increasing.
Qed.

(** X2.  When the write of frame [k] raises, after writes that returned and
    with [self.exporting] still set, the frames passed to [WriteFrame] are
    [start_frame..k], the export ends in the handler with that message, the
    writer is not closed and no final signal follows: every signal is one
    of the loop's, for a frame up to [k]. *)
Theorem write_failure_ends_the_export
    (env : Env) (cfg : settings) (path : string) (s e k : Z) (msg : string) :
  s < e -> s <= k <= e ->
  (forall f, s <= f < k -> write_frame env f = None) ->
  (forall f, s <= f < k -> exporting env f = true) ->
  write_frame env k = Some msg ->
  let r := export env cfg path s e in
  writes (events r) = frames_from s (Z.to_nat (k - s + 1))
  /\ exit r = Raised msg
  /\ outcome_of r = Failed (kind_of (error_branch msg)) msg
  /\ filter is_close (events r) = []
  /\ filter is_elapsed (events r) = []
  /\ Forall (fun f => s <= f <= k) (signalled (events r))
  /\ exists before,
       events r = before ++ except_handler cfg msg ++ teardown path.
Proof.
  intros Hse Hk Hw Hx Hfail r. subst r.
  pose proof (export_run env cfg path s e Hse) as Hrun. cbv zeta in Hrun.
  rewrite (frames_run_raised env _ s k msg) in Hrun by (auto; lia).
  injection Hrun as Hws Hexit. symmetry in Hexit.
  destruct (export_loop env s e) as [[evs ex] st] eqn:Hloop.
  pose proof (frame_loop_run env _ s e _ _ _ _ _ _ (Z.lt_neq _ _ Hse) Hloop) as Hr.
  rewrite (frames_run_raised env _ s k msg) in Hr by (auto; lia).
  injection Hr as Hwevs ->.
  destruct (export_raised_in_loop env cfg path s e _ _ _ Hloop) as [_ Hev].
  pose proof (frame_loop_events env _ s e _ _ _ _ _ _ Hloop I) as Hin.
  destruct (frame_loop_signalled env _ s e _ _ _ _ _ _ Hloop) as [_ Hb].
  destruct (except_handler_quiet cfg msg) as (_ & Hhs & _).
  split; [now symmetry|]. split; [exact Hexit|].
  split; [unfold outcome_of; now rewrite Hexit|].
  split; [now apply (raised_in_loop_skips_close env cfg path s e evs msg st)|].
  split; [|split].
  - rewrite Hev. cbn [app filter is_elapsed]. rewrite !filter_app.
    rewrite (filter_none is_elapsed evs)
      by (eapply Forall_impl; [|exact Hin]; now intros ev [? _]).
    assert (Hh : filter is_elapsed (except_handler cfg msg) = []).
    { unfold except_handler. now destruct (error_branch msg). }
    now rewrite Hh.
  - rewrite Hev, !signalled_app, Hhs. cbn. rewrite app_nil_r.
    rewrite Hwevs, frames_from_length in Hb.
    eapply Forall_impl; [|exact Hb]. cbn; intros; lia.
  - now apply export_raised.
Qed.

Lemma write_failure_ends_the_export_witness :
  1 < 100 /\ 1 <= 5 <= 100
  /\ write_frame (failing_at 5 "<InvalidFormat> no muxer" (1 # 25)) 5
     = Some "<InvalidFormat> no muxer"
  /\ outcome_of (export (failing_at 5 "<InvalidFormat> no muxer" (1 # 25))
                   sample_settings "out.mp4" 1 100)
     = Failed SinkFormatUnsupported "<InvalidFormat> no muxer".
Proof.
  split; [lia|]. split; [lia|]. split; [reflexivity|].
  refine (proj1 (proj2 (proj2
    (write_failure_ends_the_export
       (failing_at 5 "<InvalidFormat> no muxer" (1 # 25)) sample_settings
       "out.mp4" 1 100 5 "<InvalidFormat> no muxer" _ _ _ _ _)))).
  - lia.
  - lia.
  - intros f Hf. cbn. destruct (f =? 5) eqn:E; [apply Z.eqb_eq in E; lia|reflexivity].
  - reflexivity.
  - reflexivity.
Defined.

(** ** Ranges that hold no frame or one frame *)

(** X3.  On a range with [end_frame < start_frame] the [for] statement runs
    no iteration: nothing is written or signalled, the writer is opened and
    closed, and the read of [end_time_export] for the final signal raises,
    so the export ends in the handler and the teardown. *)
Theorem empty_range_fails_after_closing
    (env : Env) (cfg : settings) (path : string) (s e : Z) :
  e < s ->
  let r := export env cfg path s e in
  exit r = Raised unbound_end_time
  /\ events r = [WriterOpen; ExportStarted path s e; WriterClose]
                ++ except_handler cfg unbound_end_time ++ teardown path
  /\ writes (events r) = []
  /\ signalled (events r) = [].
Proof.
  intros Hes r. subst r.
  assert (Hloop : export_loop env s e = ([], Exhausted, initial_locals env)).
  { unfold export_loop. now replace (Z.to_nat (e + 1 - s)) with O by lia. }
  destruct (export_shape env cfg path s e _ _ _ Hloop) as [_ [Hx Hev]].
  destruct (except_handler_quiet cfg unbound_end_time) as (Hw & Hs & _).
  split; [exact Hx|]. split; [exact Hev|].
  rewrite Hev. split.
  - rewrite !writes_app, Hw. reflexivity.
  - rewrite !signalled_app, Hs. reflexivity.
Qed.

Lemma empty_range_fails_after_closing_witness :
  1 < 3
  /\ exit (export (quiet 1) sample_settings "out.mp4" 3 1) = Raised unbound_end_time.
Proof.
  split; [lia|].
  apply (empty_range_fails_after_closing (quiet 1) sample_settings "out.mp4" 3 1).
  lia.
Defined.

Lemma progressstep_single (s : Z) : progressstep s s = 1.
Proof. unfold progressstep. now rewrite Z.sub_diag. Qed.

(** X4.  Entered with [start_frame = end_frame], the export raises
    [ZeroDivisionError] in the display branch of its first iteration, before
    any signal or write: the check of lines 829-838 is what keeps the loop's
    fraction from a zero divisor. *)
Theorem single_frame_range_raises_before_writing
    (env : Env) (cfg : settings) (path : string) (s : Z) :
  let r := export env cfg path s s in
  exit r = Raised "float division by zero"
  /\ events r = [WriterOpen; ExportStarted path s s]
                ++ except_handler cfg "float division by zero" ++ teardown path.
Proof.
  cbv zeta.
  assert (Hloop : exists st,
             export_loop env s s = ([], Raised "float division by zero", st)).
  { unfold export_loop.
    replace (Z.to_nat (s + 1 - s)) with 1%nat by lia.
    cbn [frame_loop]. unfold display, is_display_tick.
    rewrite progressstep_single, Z.mod_1_r. cbn [Z.eqb orb].
    unfold update_progress, Py.truediv.
    rewrite Qeq_bool_inject_Z_0, Z.sub_diag. cbn [Z.eqb Py.bind].
    eauto. }
  destruct Hloop as [st Hloop].
  destruct (export_raised_in_loop env cfg path s s _ _ _ Hloop) as [Hx Hev].
  now rewrite Hx, Hev.
Qed.

(** ** Opening and closing *)

Lemma except_handler_events (cfg : settings) (msg : string) :
  Forall (fun ev => is_handler_event ev = true) (except_handler cfg msg).
Proof.
  unfold except_handler. destruct (error_branch msg); repeat constructor.
Qed.

(** X5.  On every path, also when the loop or the final signal raises, an
    export opens the writer and sends the start signal first and ends with
    the teardown ([ExportEnded], [timeline.Close()], [ClearAllCache()]), and
    does none of these five anywhere in between: each happens exactly
    once. *)
Theorem export_is_bracketed
    (env : Env) (cfg : settings) (path : string) (s e : Z) :
  exists middle,
    events (export env cfg path s e)
    = [WriterOpen; ExportStarted path s e] ++ middle
      ++ [ExportEnded path; TimelineClose; ClearAllCache]
    /\ Forall (fun ev => is_bracket ev = false) middle.
Proof.
  destruct (export_loop env s e) as [[evs ex] st] eqn:Hloop.
  pose proof (frame_loop_loop_events env _ s e _ _ _ _ _ _ Hloop) as Hin.
  assert (Hevs : Forall (fun ev => is_bracket ev = false) evs).
  { eapply Forall_impl; [|exact Hin]. intros ev Hev. now destruct ev. }
  assert (Hh : forall msg,
             Forall (fun ev => is_bracket ev = false) (except_handler cfg msg)).
  { intros msg. eapply Forall_impl; [|apply except_handler_events].
    intros ev Hev. now destruct ev. }
  destruct (export_shape env cfg path s e evs ex st Hloop) as [_ Hs].
  cbv zeta in Hs. unfold teardown in Hs.
  destruct ex, (end_time_export st); destruct Hs as [_ ->].
  1,3: eexists (evs ++ [WriterClose; _]);
       rewrite <- !app_assoc; split; [reflexivity|];
       apply Forall_app; split; [exact Hevs|]; repeat constructor.
  1,2: exists (evs ++ [WriterClose] ++ except_handler cfg unbound_end_time);
       rewrite <- !app_assoc; split; [reflexivity|];
       apply Forall_app; split; [exact Hevs|];
       apply Forall_app; split; [repeat constructor|apply Hh].
  1,2: exists (evs ++ except_handler cfg error_type_str);
       rewrite <- !app_assoc; split; [reflexivity|];
       apply Forall_app; split; [exact Hevs|apply Hh].
Qed.

(** X6.  The writer is closed exactly once when the loop ran out or was
    left by [break], also when the final signal then raises, and it is not
    closed at all when the loop raised: [w.Close()] is never called
    twice. *)
Theorem writer_closed_once_unless_the_loop_raised
    (env : Env) (cfg : settings) (path : string) (s e : Z) :
  filter is_close (events (export env cfg path s e))
  = match snd (fst (export_loop env s e)) with
    | Raised _ => []
    | _ => [WriterClose]
    end.
Proof.
  destruct (export_loop env s e) as [[evs ex] st] eqn:Hloop.
  cbn [fst snd].
  pose proof (frame_loop_events env _ s e _ _ _ _ _ _ Hloop I) as Hin.
  assert (Hevs : filter is_close evs = []).
  { apply filter_none. eapply Forall_impl; [|exact Hin]. now intros ev [_ ?]. }
  assert (Hh : forall msg, filter is_close (except_handler cfg msg) = []).
  { intros msg. apply filter_none. apply except_handler_quiet. }
  destruct (export_shape env cfg path s e evs ex st Hloop) as [_ Hs].
  cbv zeta in Hs.
  destruct ex, (end_time_export st); destruct Hs as [_ ->];
    cbn [app filter is_close]; rewrite !filter_app, Hevs, ?Hh; reflexivity.
Qed.

(** ** The throttle *)

Lemma mod_pred (f step : Z) :
  0 < step -> f mod step <> 0 -> (f - 1) mod step = f mod step - 1.
Proof.
  intros Hstep Hm. symmetry.
  apply (Z.mod_unique_pos (f - 1) step (f / step)).
  - pose proof (Z.mod_pos_bound f step Hstep). lia.
  - pose proof (Z.div_mod f step). lia.
Qed.

Lemma fraction_bounds (a b : Z) :
  0 <= a <= b -> 0 < b -> (0 <= inject_Z a / inject_Z b <= 1)%Q.
Proof.
  intros Ha Hb.
  assert (Hb' : (0 < inject_Z b)%Q).
  { change (inject_Z 0 < inject_Z b)%Q. rewrite <- Zlt_Qlt. exact Hb. }
  split.
  - apply Qle_shift_div_l; [exact Hb'|].
    rewrite Qmult_0_l. change (inject_Z 0 <= inject_Z a)%Q.
    rewrite <- Zle_Qle. lia.
  - apply Qle_shift_div_r; [exact Hb'|].
    rewrite Qmult_1_l. rewrite <- Zle_Qle. lia.
Qed.

Section Throttle.

Variable env : Env.
Variable t0 : Q.
Variables s e : Z.

(** The two ways the display branch returns. *)
Lemma display_cases (f : Z) (t : Q) (r : nat) (p : progress)
    (sig : list event) (r' : nat) (p' : progress) :
  display env t0 s e f t r p = Ok (sig, r', p') ->
  (is_display_tick (progressstep s e) f t p = false
   /\ sig = [] /\ r' = r /\ p' = p)
  \/ (is_display_tick (progressstep s e) f t p = true
      /\ signalled sig = [f] /\ writes sig = [] /\ r' = S r
      /\ update_progress (libm_log10 env) t0 t (clock env r) s e f p = Ok p').
Proof.
  unfold display.
  destruct (is_display_tick _ _ _ _).
  - destruct (update_progress _ _ _ _ _ _ _ _) as [q|msg]; cbn [Py.bind];
      [|discriminate].
    intros [= <- <- <-]. right. repeat split; reflexivity.
  - intros [= <- <- <-]. left. repeat split; reflexivity.
Qed.

(** With a clock that shows at most a second across any [progressstep]
    readings in a row, the loop signals a frame exactly when it is a
    multiple of the step.  [i] is the reading the last display tick kept. *)
Lemma frame_loop_step_ticks (n : nat) (f : Z) (st : locals)
    (evs : list event) (ex : loop_exit) (st' : locals) :
  (forall i j : nat,
      (i <= j)%nat -> Z.of_nat j - Z.of_nat i < progressstep s e ->
      (clock env j - clock env i <= 1)%Q) ->
  frame_loop env t0 s e n f st = (evs, ex, st') ->
  (exists i : nat,
      last_exported_time (shown st) = clock env i
      /\ (i <= clock_reads st)%nat
      /\ Z.of_nat (clock_reads st) - Z.of_nat i
         <= 1 + (f - 1) mod progressstep s e) ->
  signalled evs = filter (fun x => x mod progressstep s e =? 0) (writes evs).
Proof.
  intros Hclock. revert f st evs ex st'.
  pose proof (progressstep_at_least_1 s e) as Hstep.
  induction n as [|n IH]; intros f st evs ex st' H (i & Hi & Hle & Hgap).
  - cbn in H. now injection H as <- <- <-.
  - apply frame_loop_cases in H. cbn zeta in H.
    destruct H as [(msg & _ & -> & _ & _)|(sig & r & p & Hd & H)];
      [reflexivity|].
    assert (Htick : is_display_tick (progressstep s e) f
                      (clock env (clock_reads st)) (shown st)
                    = (f mod progressstep s e =? 0)).
    { unfold is_display_tick. rewrite Hi.
      destruct (f mod progressstep s e =? 0) eqn:Hm; [reflexivity|].
      apply Z.eqb_neq in Hm.
      assert (Hg : Py.gt (clock env (clock_reads st) - clock env i) 1 = false).
      { apply not_true_iff_false. rewrite gt_iff. apply Qle_not_lt, Hclock;
          [exact Hle|].
        rewrite (mod_pred f (progressstep s e)) in Hgap by (lia || exact Hm).
        pose proof (Z.mod_pos_bound f (progressstep s e)). lia. }
      now rewrite Hg. }
    assert (Hsig : writes sig = []
                   /\ signalled sig
                      = (if f mod progressstep s e =? 0 then [f] else [])
                   /\ exists i' : nat,
                        last_exported_time p = clock env i'
                        /\ (i' <= r)%nat
                        /\ Z.of_nat r - Z.of_nat i'
                           <= 1 + (f + 1 - 1) mod progressstep s e).
    { apply display_cases in Hd
        as [(Ht & -> & -> & ->)|(Ht & Hs & Hw & -> & Hup)];
        rewrite Htick in Ht; rewrite Ht.
      - split; [reflexivity|]. split; [reflexivity|].
        exists i. split; [exact Hi|]. split; [lia|].
        apply Z.eqb_neq in Ht.
        rewrite (mod_pred f (progressstep s e)) in Hgap by (lia || exact Ht).
        replace (f + 1 - 1) with f by lia. lia.
      - apply update_progress_digits in Hup as (_ & _ & _ & _ & _ & _ & Hl).
        split; [exact Hw|]. split; [exact Hs|].
        exists (S (clock_reads st)). split; [exact Hl|]. split; [lia|].
        pose proof (Z.mod_pos_bound (f + 1 - 1) (progressstep s e)). lia. }
    destruct Hsig as (Hw & Hs & Hp).
    destruct H as [(msg & _ & -> & _ & _)
                  |[(_ & _ & -> & _ & _)
                   |(_ & _ & rest & Hrest & ->)]];
      rewrite signalled_app, writes_app, Hw, Hs; cbn [app writes signalled filter];
      try (destruct (f mod progressstep s e =? 0); reflexivity).
    apply IH in Hrest; [|exact Hp]. rewrite Hrest.
    destruct (f mod progressstep s e =? 0); reflexivity.
Qed.

(** The portion last displayed stays within 0..1. *)
Lemma frame_loop_portion (n : nat) (f : Z) (st : locals)
    (evs : list event) (ex : loop_exit) (st' : locals) :
  s < e -> s <= f -> f + Z.of_nat n <= e + 1 ->
  frame_loop env t0 s e n f st = (evs, ex, st') ->
  (0 <= last_displayed_exported_portion (shown st) <= 1)%Q ->
  (0 <= last_displayed_exported_portion (shown st') <= 1)%Q.
Proof.
  intros Hse. revert f st evs ex st'.
  induction n as [|n IH]; intros f st evs ex st' Hlo Hhi H Hst.
  - cbn in H. now injection H as <- <- <-.
  - apply frame_loop_cases in H. cbn zeta in H.
    destruct H as [(msg & _ & _ & _ & ->)|(sig & r & p & Hd & H)];
      [exact Hst|].
    assert (Hp : (0 <= last_displayed_exported_portion p <= 1)%Q).
    { apply display_cases in Hd as [(_ & _ & _ & ->)|(_ & _ & _ & _ & Hup)];
        [exact Hst|].
      apply update_progress_digits in Hup as (portion & d & Hdiv & _ & _ & -> & _).
      rewrite truediv_inject_Z in Hdiv by lia. injection Hdiv as <-.
      rewrite Qmult_1_r. apply fraction_bounds; lia. }
    destruct H as [(msg & _ & _ & _ & ->)
                  |[(_ & _ & _ & _ & ->)
                   |(_ & _ & rest & Hrest & _)]]; try exact Hp.
    eapply IH; [| |exact Hrest|exact Hp]; lia.
Qed.

End Throttle.

(** The signals of an export: those of its loop, then the final one unless
    the export raised. *)
Lemma export_signalled (env : Env) (cfg : settings) (path : string) (s e : Z)
    (evs : list event) (ex : loop_exit) (st : locals) :
  export_loop env s e = (evs, ex, st) ->
  signalled (events (export env cfg path s e))
  = signalled evs
    ++ match exit (export env cfg path s e) with
       | Raised _ => []
       | _ => [last (writes (events (export env cfg path s e))) 0]
       end.
Proof.
  intros Hloop.
  pose proof (frame_loop_max_frame env _ s e _ _ _ _ _ _ Hloop) as Hmax.
  cbn [initial_locals max_frame] in Hmax.
  rewrite (export_writes env cfg path s e _ _ _ Hloop), <- Hmax.
  destruct (export_shape env cfg path s e evs ex st Hloop) as [_ Hs].
  cbv zeta in Hs.
  destruct ex, (end_time_export st); destruct Hs as [-> ->];
    rewrite !signalled_app;
    try (destruct (except_handler_quiet cfg unbound_end_time) as (_ & -> & _));
    try (destruct (except_handler_quiet cfg error_type_str) as (_ & -> & _));
    cbn; now rewrite ?app_nil_r.
Qed.

(** X7.  When the export is fast enough that any [progressstep] clock
    readings in a row lie within one second, the throttle is the step alone:
    the frames the loop signals are exactly the written frames that are
    multiples of [progressstep]; the final signal, if any, follows them.
    For a range of fewer than 1500 frames the step is 1, the condition on
    the clock holds by itself and every written frame is signalled. *)
Theorem steady_export_signals_multiples_of_the_step
    (env : Env) (cfg : settings) (path : string) (s e : Z) :
  (forall i j : nat,
      (i <= j)%nat -> Z.of_nat j - Z.of_nat i < progressstep s e ->
      (clock env j - clock env i <= 1)%Q) ->
  let r := export env cfg path s e in
  signalled (events r)
  = filter (fun f => f mod progressstep s e =? 0) (writes (events r))
    ++ match exit r with
       | Raised _ => []
       | _ => [last (writes (events r)) 0]
       end.
Proof.
  intros Hclock r. subst r.
  destruct (export_loop env s e) as [[evs ex] st] eqn:Hloop.
  rewrite (export_signalled env cfg path s e _ _ _ Hloop).
  rewrite (export_writes env cfg path s e _ _ _ Hloop).
  f_equal.
  eapply frame_loop_step_ticks; [exact Hclock|exact Hloop|].
  exists 1%nat. cbn [initial_locals shown last_exported_time clock_reads].
  split; [reflexivity|]. split; [lia|].
  pose proof (progressstep_at_least_1 s e).
  pose proof (Z.mod_pos_bound (s - 1) (progressstep s e)). lia.
Qed.

Lemma steady_export_signals_multiples_of_the_step_witness :
  (forall i j : nat,
      (i <= j)%nat -> Z.of_nat j - Z.of_nat i < progressstep 1 1503 ->
      (clock (quiet (1 # 100)) j - clock (quiet (1 # 100)) i <= 1)%Q)
  /\ progressstep 1 1503 = 2
  /\ let r := export (quiet (1 # 100)) sample_settings "out.mp4" 1 1503 in
     signalled (events r)
     = filter (fun f => f mod progressstep 1 1503 =? 0) (writes (events r))
       ++ match exit r with
          | Raised _ => []
          | _ => [last (writes (events r)) 0]
          end.
Proof.
  assert (H : forall i j : nat,
             (i <= j)%nat -> Z.of_nat j - Z.of_nat i < progressstep 1 1503 ->
             (clock (quiet (1 # 100)) j - clock (quiet (1 # 100)) i <= 1)%Q).
  { intros i j Hij Hgap. change (progressstep 1 1503) with 2 in Hgap.
    cbn [clock quiet]. unfold steady_clock, Qle. cbn. lia. }
  split; [exact H|]. split; [reflexivity|].
  exact (steady_export_signals_multiples_of_the_step
           (quiet (1 # 100)) sample_settings "out.mp4" 1 1503 H).
Defined.

(** ** From the signals to the progress bar *)

Lemma signal_in_range_shows (s e : Z) (ev : event) :
  s < e -> signal_in_range s e ev -> shows_percentage ev.
Proof.
  intros Hse. destruct ev as [| |t s' e' f fmt| | | | | | | | |]; cbn; auto.
  intros (-> & -> & Hf).
  exists (inject_Z (f - s) / inject_Z (e - s) * 100)%Q.
  split.
  - unfold updateProgressBar, truediv_int.
    assert (H1 : (e - s >? 0) = true) by (rewrite Z.gtb_ltb; apply Z.ltb_lt; lia).
    assert (H2 : (e - s =? 0) = false) by (apply Z.eqb_neq; lia).
    now rewrite H1, H2.
  - destruct (fraction_bounds (f - s) (e - s)) as [H0 H1]; [lia|lia|].
    split.
    + apply Qmult_le_0_compat; [exact H0|discriminate].
    + setoid_replace 100%Q with (1 * 100)%Q at 2 by (now rewrite Qmult_1_l).
      apply Qmult_le_compat_r; [exact H1|discriminate].
Qed.

Lemma export_signals_in_range (env : Env) (cfg : settings) (path : string)
    (s e : Z) :
  s <= e -> Forall (signal_in_range s e) (events (export env cfg path s e)).
Proof.
  intros Hse.
  destruct (export_loop env s e) as [[evs ex] st] eqn:Hloop.
  assert (Hevs : Forall (signal_in_range s e) evs).
  { eapply frame_loop_signals_in_range; [exact Hloop|lia|lia]. }
  assert (Hh : forall msg, Forall (signal_in_range s e) (except_handler cfg msg)).
  { intros msg. eapply Forall_impl; [|apply except_handler_events].
    intros ev Hev. now destruct ev. }
  assert (Hmax : (forall msg, ex <> Raised msg) -> s <= max_frame st <= e).
  { intros Hex.
    rewrite (frame_loop_max_frame env _ s e _ _ _ _ _ _ Hloop).
    destruct (frame_loop_writes env _ s e _ _ _ _ _ _ Hloop) as (m & Hm & Hw).
    unfold export_loop in Hloop.
    destruct (Z.to_nat (e + 1 - s)) as [|n] eqn:En; [lia|].
    destruct (frame_loop_written env _ s e _ _ _ _ _ _ Hloop) as [rest Hrest].
    { exact Hex. }
    rewrite Hw in *. destruct m as [|m]; [discriminate|].
    rewrite frames_from_last. lia. }
  destruct (export_shape env cfg path s e evs ex st Hloop) as [_ Hs].
  cbv zeta in Hs.
  destruct ex, (end_time_export st); destruct Hs as [_ ->];
    repeat (apply Forall_app; split);
    try exact Hevs; try apply Hh;
    repeat constructor; cbn; auto;
    apply Hmax; discriminate.
Qed.

(** X9.  On a range with [start_frame < end_frame], whatever the clock, the
    writer and the user do, every progress signal the export sends makes
    the progress slot show a percentage between 0 and 100 and set the bar
    to a frame of the range; the slot never raises on them. *)
Theorem every_signal_shows_a_percentage
    (env : Env) (cfg : settings) (path : string) (s e : Z) :
  s < e ->
  Forall (signal_in_range s e) (events (export env cfg path s e))
  /\ Forall shows_percentage (events (export env cfg path s e)).
Proof.
  intros Hse.
  pose proof (export_signals_in_range env cfg path s e ltac:(lia)) as H.
  split; [exact H|].
  eapply Forall_impl; [|exact H].
  intros ev. now apply signal_in_range_shows.
Qed.

Lemma every_signal_shows_a_percentage_witness :
  1 < 200
  /\ Forall shows_percentage
       (events (export (cancelled_at 51 (1 # 25)) sample_settings "out.mp4" 1 200)).
Proof.
  split; [lia|].
  apply (every_signal_shows_a_percentage
           (cancelled_at 51 (1 # 25)) sample_settings "out.mp4" 1 200).
  lia.
Defined.

(** X10.  On a range with [start_frame < end_frame] the portion last
    displayed, which the digit count is taken against, is within 0..1 when
    the export ends, however it ends. *)
Theorem displayed_portion_within_unit_interval
    (env : Env) (cfg : settings) (path : string) (s e : Z) :
  s < e ->
  (0 <= last_displayed_exported_portion (shown (final (export env cfg path s e)))
   <= 1)%Q.
Proof.
  intros Hse.
  destruct (export_loop env s e) as [[evs ex] st] eqn:Hloop.
  destruct (export_shape env cfg path s e evs ex st Hloop) as [-> _].
  eapply (frame_loop_portion env _ s e); [exact Hse| | |exact Hloop|].
  - lia.
  - lia.
  - cbn. split; discriminate.
Qed.

Lemma displayed_portion_within_unit_interval_witness :
  1 < 100
  /\ (0 <= last_displayed_exported_portion
             (shown (final (export (quiet (1 # 25)) sample_settings
                              "out.mp4" 1 100))) <= 1)%Q.
Proof.
  split; [lia|].
  apply (displayed_portion_within_unit_interval
           (quiet (1 # 25)) sample_settings "out.mp4" 1 100).
  lia.
Defined.

(** ** The numbers of the estimate *)

(** [round] stays within a half of its argument. *)
Lemma round_within_half (x : Q) :
  (inject_Z (Py.round x) - (1 # 2) <= x <= inject_Z (Py.round x) + (1 # 2))%Q.
Proof.
  unfold Py.round.
  pose proof (Qfloor_le x) as Hlo. pose proof (Qlt_floor x) as Hhi.
  rewrite inject_Z_plus in Hhi. change (inject_Z 1) with 1%Q in Hhi.
  destruct (x - inject_Z (Qfloor x) ?= 1 # 2)%Q eqn:E.
  - apply Qeq_alt in E.
    destruct (Z.even (Qfloor x)); rewrite ?inject_Z_plus;
      change (inject_Z 1) with 1%Q; lra.
  - apply Qlt_alt in E. lra.
  - apply Qgt_alt in E. rewrite inject_Z_plus.
    change (inject_Z 1) with 1%Q. lra.
Qed.

Lemma round_nonneg (x : Q) : (0 <= x)%Q -> 0 <= Py.round x.
Proof.
  intros Hx. unfold Py.round.
  assert (H0 : 0 <= Qfloor x).
  { change 0 with (Qfloor 0). now apply Qfloor_resp_le. }
  destruct (x - inject_Z (Qfloor x) ?= 1 # 2)%Q; [|lia|lia].
  destruct (Z.even (Qfloor x)); lia.
Qed.

(** X11.  The step is at least 1, and a range is at most 1500 steps long:
    the step-based signals of an export are bounded whatever the size of
    the range (and the step is 1 up to 1500 frames). *)
Theorem progressstep_bounds (s e : Z) :
  1 <= progressstep s e
  /\ e - s <= 1500 * progressstep s e
  /\ (e - s < 1500 -> progressstep s e = 1)
  /\ 1000 * progressstep s e <= Z.max 1000 (e - s + 500).
Proof.
  unfold progressstep.
  pose proof (round_within_half (inject_Z (e - s) / 1000)) as [Hlo Hhi].
  set (r := Py.round (inject_Z (e - s) / 1000)) in *.
  assert (Hx : (inject_Z (e - s) / 1000 * 1000 == inject_Z (e - s))%Q) by field.
  assert (H1 : e - s <= 1000 * r + 500).
  { rewrite Zle_Qle, inject_Z_plus, inject_Z_mult.
    change (inject_Z 1000) with 1000%Q. change (inject_Z 500) with 500%Q. lra. }
  assert (H2 : 1000 * r - 500 <= e - s).
  { rewrite Zle_Qle. unfold Z.sub at 1. rewrite inject_Z_plus, inject_Z_mult.
    change (inject_Z 1000) with 1000%Q. change (inject_Z (- (500))) with (-500)%Q.
    lra. }
  lia.
Qed.

Lemma progressstep_bounds_witness :
  progressstep 1 1000 = 1 /\ 20000 - 1 <= 1500 * progressstep 1 20000.
Proof.
  split.
  - apply (proj1 (proj2 (proj2 (progressstep_bounds 1 1000)))). lia.
  - apply (proj1 (proj2 (progressstep_bounds 1 20000))).
Defined.

Lemma progressstep_short (s e : Z) : e - s < 1500 -> progressstep s e = 1.
Proof.
  intros Hshort. unfold progressstep.
  pose proof (round_within_half (inject_Z (e - s) / 1000)) as [Hlo _].
  set (r := Py.round (inject_Z (e - s) / 1000)) in *.
  assert (Hx : (inject_Z (e - s) / 1000 * 1000 == inject_Z (e - s))%Q) by field.
  assert (H2 : 1000 * r - 500 <= e - s).
  { rewrite Zle_Qle. unfold Z.sub at 1. rewrite inject_Z_plus, inject_Z_mult.
    change (inject_Z 1000) with 1000%Q. change (inject_Z (- (500))) with (-500)%Q.
    lra. }
  lia.
Qed.

Lemma filter_all {A : Type} (f : A -> bool) (l : list A) :
  (forall x, f x = true) -> filter f l = l.
Proof.
  intros H. induction l as [|x l IH]; [reflexivity|].
  cbn. now rewrite H, IH.
Qed.

(** X8.  A range of fewer than 1500 frames has step 1, so the throttle lets
    every iteration through whatever the clock shows: each frame passed to
    [WriteFrame] was signalled just before; the final signal, if any,
    follows them. *)
Theorem short_export_signals_every_frame
    (env : Env) (cfg : settings) (path : string) (s e : Z) :
  e - s < 1500 ->
  let r := export env cfg path s e in
  signalled (events r)
  = writes (events r)
    ++ match exit r with
       | Raised _ => []
       | _ => [last (writes (events r)) 0]
       end.
Proof.
  intros Hshort r. subst r.
  pose proof (progressstep_short s e Hshort) as Hstep.
  destruct (export_loop env s e) as [[evs ex] st] eqn:Hloop.
  rewrite (export_signalled env cfg path s e _ _ _ Hloop).
  rewrite (export_writes env cfg path s e _ _ _ Hloop).
  f_equal.
  transitivity (filter (fun x => x mod progressstep s e =? 0) (writes evs)).
  - eapply frame_loop_step_ticks; [|exact Hloop|].
    + intros i j Hij Hgap. rewrite Hstep in Hgap.
      assert (j = i) by lia. subst j. lra.
    + exists 1%nat. cbn [initial_locals shown last_exported_time clock_reads].
      split; [reflexivity|]. split; [lia|].
      rewrite Hstep, Z.mod_1_r. lia.
  - apply filter_all. intros x. now rewrite Hstep, Z.mod_1_r.
Qed.

Lemma short_export_signals_every_frame_witness :
  1000 - 1 < 1500
  /\ let r := export (quiet 2) sample_settings "out.mp4" 1 1000 in
     signalled (events r)
     = writes (events r)
       ++ match exit r with
          | Raised _ => []
          | _ => [last (writes (events r)) 0]
          end.
Proof.
  split; [lia|].
  apply (short_export_signals_every_frame (quiet 2) sample_settings "out.mp4"
           1 1000).
  lia.
Defined.

Lemma Qfloor_div_pos (a : Z) (p : positive) :
  Qfloor (inject_Z a / inject_Z (Zpos p)) = a / Zpos p.
Proof.
  unfold Qdiv, Qmult, Qinv, inject_Z, Qfloor. cbn.
  now rewrite Z.mul_1_r.
Qed.

Lemma Qfloor_minus_Z (x : Q) (m : Z) :
  Qfloor (x - inject_Z m) = Qfloor x - m.
Proof.
  destruct x as [n d].
  assert (H : (n # d) - inject_Z m == (n + (- m) * Zpos d) # d).
  { unfold Qeq, Qminus, Qplus, Qopp, inject_Z. cbn. lia. }
  rewrite (Qfloor_comp _ _ H). cbn [Qfloor].
  rewrite Z.div_add by discriminate. lia.
Qed.

Lemma titlestring_splits_the_seconds_aux (sec : Z) (fps : Q) (mess : string) :
  0 <= sec ->
  exists hours minutes seconds,
    titlestring sec fps mess = TitleTime hours minutes seconds mess fps
    /\ 0 <= hours /\ 0 <= minutes < 60 /\ 0 <= seconds < 60
    /\ 3600 * hours + 60 * minutes + seconds = sec.
Proof.
  intros Hsec. unfold titlestring, Py.int_of_float, Py.fmod.
  assert (Hh : Qfloor (inject_Z sec / 3600) = sec / 3600)
    by apply (Qfloor_div_pos sec 3600).
  assert (Hm : Qfloor (inject_Z sec / 60) = sec / 60)
    by apply (Qfloor_div_pos sec 60).
  assert (Hq : (inject_Z sec / 60 / 60 == inject_Z sec / 3600)%Q) by field.
  assert (H0 : (0 <= inject_Z sec)%Q)
    by (change (inject_Z 0 <= inject_Z sec)%Q; now rewrite <- Zle_Qle).
  assert (Hpos : Qle_bool 0 (inject_Z sec / 3600) = true).
  { apply Qle_bool_iff. apply Qle_shift_div_l; [reflexivity|]. lra. }
  rewrite Hpos, Hh.
  rewrite (Qfloor_comp _ _ Hq), Hh.
  set (k := sec / 3600).
  assert (Hk : (60 * inject_Z k == inject_Z (60 * k))%Q)
    by (rewrite inject_Z_mult; reflexivity).
  assert (Hfl : Qfloor (inject_Z sec / 60 - 60 * inject_Z k) = sec / 60 - 60 * k).
  { assert (H : (inject_Z sec / 60 - 60 * inject_Z k
                 == inject_Z sec / 60 - inject_Z (60 * k))%Q)
      by (now rewrite Hk).
    now rewrite (Qfloor_comp _ _ H), Qfloor_minus_Z, Hm. }
  assert (Hdiv : sec / 60 - 60 * k = (sec / 60) mod 60).
  { subst k. replace 3600 with (60 * 60) by reflexivity.
    rewrite <- Z.div_div by lia.
    rewrite (Z.mod_eq (sec / 60) 60) by lia. reflexivity. }
  assert (Hmpos : Qle_bool 0 (inject_Z sec / 60 - 60 * inject_Z k) = true).
  { apply Qle_bool_iff.
    pose proof (Qfloor_le (inject_Z sec / 60 - 60 * inject_Z k)) as Hle.
    rewrite Hfl, Hdiv in Hle.
    assert (0 <= (sec / 60) mod 60) by (apply Z.mod_pos_bound; lia).
    assert (Hz : (0 <= inject_Z ((sec / 60) mod 60))%Q)
      by (change (inject_Z 0 <= inject_Z ((sec / 60) mod 60))%Q;
          now rewrite <- Zle_Qle).
    lra. }
  rewrite Hmpos, Hfl, Hdiv.
  do 3 eexists. split; [reflexivity|].
  pose proof (Z.mod_pos_bound (sec / 60) 60 ltac:(lia)).
  pose proof (Z.mod_pos_bound sec 60 ltac:(lia)).
  assert (0 <= k) by (subst k; apply Z.div_pos; lia).
  repeat split; try lia.
  subst k.
  pose proof (Z.div_mod sec 60 ltac:(lia)).
  pose proof (Z.div_mod (sec / 60) 60 ltac:(lia)).
  replace 3600 with (60 * 60) by reflexivity.
  rewrite <- Z.div_div by lia. lia.
Qed.

(** X12.  For a whole number of seconds that is not negative, the title
    shows it split into hours, minutes below 60 and seconds below 60 that
    add up to it. *)
Theorem titlestring_splits_the_seconds (sec : Z) (fps : Q) (mess : string) :
  0 <= sec ->
  exists hours minutes seconds,
    titlestring sec fps mess = TitleTime hours minutes seconds mess fps
    /\ 0 <= hours /\ 0 <= minutes < 60 /\ 0 <= seconds < 60
    /\ 3600 * hours + 60 * minutes + seconds = sec.
Proof. apply titlestring_splits_the_seconds_aux. Qed.

Lemma titlestring_splits_the_seconds_witness :
  0 <= 3725
  /\ titlestring 3725 25 "Elapsed" = TitleTime 1 2 5 "Elapsed" 25.
Proof.
  split; [lia|].
  destruct (titlestring_splits_the_seconds 3725 25 "Elapsed")
    as (h & m & sec & Ht & _); [lia|].
  reflexivity.
Defined.

(** A negative count, as a clock set back would give, is not split this
    way: one second less than nothing shows as 0:59:59. *)
Example titlestring_negative_seconds :
  titlestring (-1) 25 "Remaining" = TitleTime 0 59 59 "Remaining" 25.
Proof. reflexivity. Qed.

Lemma seconds_left_value
    (start_time now : Q) (frame start_frame end_frame : Z) :
  start_frame < frame <= end_frame ->
  (start_time <= now)%Q ->
  exists n,
    seconds_left start_time now frame start_frame end_frame = Ok n
    /\ 0 <= n
    /\ (frame = end_frame -> n = 0).
Proof.
  intros Hf Ht. unfold seconds_left.
  rewrite truediv_inject_Z by lia. cbn [Py.bind].
  eexists. split; [reflexivity|].
  assert (Hd : (0 < inject_Z (frame - start_frame))%Q).
  { change (inject_Z 0 < inject_Z (frame - start_frame))%Q.
    rewrite <- Zlt_Qlt. lia. }
  assert (He : (inject_Z (frame - end_frame) <= 0)%Q).
  { change (inject_Z (frame - end_frame) <= inject_Z 0)%Q.
    rewrite <- Zle_Qle. lia. }
  split.
  - apply round_nonneg. apply Qle_shift_div_l; [exact Hd|].
    rewrite Qmult_0_l.
    setoid_replace ((start_time - now) * inject_Z (frame - end_frame))%Q
      with ((now - start_time) * - inject_Z (frame - end_frame))%Q by ring.
    apply Qmult_le_0_compat; lra.
  - intros ->. rewrite Z.sub_diag.
    assert (H : ((start_time - now) * inject_Z 0
                 / inject_Z (end_frame - start_frame) == 0)%Q).
    { change (inject_Z 0) with 0%Q. unfold Qdiv. ring. }
    now rewrite (round_comp _ _ H).
Qed.

(** X13.  For a frame past the first and up to the last, and a clock that
    has not gone back, the remaining time is computed without exception and
    is not negative; at the last frame it is 0. *)
Theorem seconds_left_not_negative
    (start_time now : Q) (frame start_frame end_frame : Z) :
  start_frame < frame <= end_frame ->
  (start_time <= now)%Q ->
  exists n,
    seconds_left start_time now frame start_frame end_frame = Ok n
    /\ 0 <= n
    /\ (frame = end_frame -> n = 0).
Proof. apply seconds_left_value. Qed.

Lemma seconds_left_not_negative_witness :
  1 < 26 <= 101 /\ (0 <= 10)%Q /\ seconds_left 0 10 26 1 101 = Ok 30.
Proof.
  split; [lia|]. split; [discriminate|].
  destruct (seconds_left_not_negative 0 10 26 1 101) as (n & Hn & _);
    [lia|discriminate|].
  reflexivity.
Defined.

(** ** The dialog text *)

Lemma remove_char_removes (c : ascii) (s : string) :
  Py.contains (String c "") (Py.remove_char c s) = false.
Proof.
  induction s as [|c' s IH]; [reflexivity|].
  cbn [Py.remove_char].
  destruct (Ascii.eqb c c') eqn:E; [exact IH|].
  cbn [Py.contains String.prefix].
  destruct (Ascii.ascii_dec c c') as [->|_];
    [now rewrite Ascii.eqb_refl in E|exact IH].
Qed.

(** X14.  The error text shown in the dialog never holds a ["<"], and it is
    the message itself when the message holds neither ["> "] nor ["<"]. *)
Theorem friendly_error_has_no_angle_bracket (msg : string) :
  Py.contains "<" (friendly_error msg) = false
  /\ (Py.contains "> " msg = false -> Py.contains "<" msg = false ->
      friendly_error msg = msg).
Proof.
  split; [apply remove_char_removes|apply friendly_error_plain].
Qed.

Lemma friendly_error_has_no_angle_bracket_witness :
  Py.contains "> " "disk full" = false
  /\ friendly_error "disk full" = "disk full"
  /\ friendly_error "<OutOfMemory> a<b> rest" = "OutOfMemory".
Proof.
  split; [reflexivity|]. split; [|reflexivity].
  apply (proj2 (friendly_error_has_no_angle_bracket "disk full")); reflexivity.
Defined.

(** * The other functions of the dialog *)

(** ** Bit rates *)

Example convert_to_bytes_samples :
  convert_to_bytes sample_platform "15 Mb/s" = Ok (None, "15000000")
  /\ convert_to_bytes sample_platform "192 kb/s" = Ok (None, "192000")
  /\ convert_to_bytes sample_platform "70 crf" = Ok (None, "63")
  /\ convert_to_bytes sample_platform "70 cqp" = Ok (None, "63")
  /\ convert_to_bytes sample_platform "300 qp" = Ok (None, "255")
  /\ convert_to_bytes sample_platform "-inf qp" = Ok (None, "0")
  /\ convert_to_bytes sample_platform "15Mb/s" = Ok (None, "0")
  /\ convert_to_bytes sample_platform "fast Mb/s"
     = Ok (Some "Failed to convert bitrate string to bytes: fast Mb/s", "0")
  /\ convert_to_bytes sample_platform "15 fps" = Ok (None, "0").
Proof. repeat split; vm_compute; reflexivity. Qed.

(** Where the method follows the doubles: [int] of a NaN or of an infinity
    raises, outside the [try]; and a product is rounded to a double. *)
Example convert_to_bytes_on_doubles :
  convert_to_bytes sample_platform "nan qp"
  = Raise "cannot convert float NaN to integer"
  /\ convert_to_bytes sample_platform "nan kb"
     = Raise "cannot convert float NaN to integer"
  /\ convert_to_bytes sample_platform "inf Mb/s"
     = Raise "cannot convert float infinity to integer"
  /\ convert_to_bytes sample_platform "9007199254740993 kb"
     = Ok (None, "9007199254740992000").
Proof. repeat split; vm_compute; reflexivity. Qed.

Lemma is_nan_spec (x : float) :
  PrimFloat.is_nan x = true <-> Prim2SF x = S754_nan.
Proof.
  unfold PrimFloat.is_nan. rewrite FloatAxioms.eqb_spec. unfold SFeqb.
  destruct (Prim2SF x) as [sg|sg| |sg m e]; cbn.
  - split; discriminate.
  - destruct sg; split; discriminate.
  - split; reflexivity.
  - rewrite Z.compare_refl.
    change (PosDef.Pos.compare_cont Eq m m) with (Pos.compare m m).
    rewrite Pos.compare_refl. destruct sg; split; discriminate.
Qed.

Lemma digits2_pos_bounds (m : positive) :
  2 ^ (Z.pos (digits2_pos m) - 1) <= Z.pos m < 2 ^ Z.pos (digits2_pos m).
Proof.
  induction m as [m IH|m IH|]; cbn [digits2_pos].
  - rewrite Pos2Z.inj_succ.
    replace (Z.succ (Z.pos (digits2_pos m)) - 1)
      with (Z.succ (Z.pos (digits2_pos m) - 1)) by lia.
    rewrite !Z.pow_succ_r by lia. lia.
  - rewrite Pos2Z.inj_succ.
    replace (Z.succ (Z.pos (digits2_pos m)) - 1)
      with (Z.succ (Z.pos (digits2_pos m) - 1)) by lia.
    rewrite !Z.pow_succ_r by lia. lia.
  - cbn. lia.
Qed.

(** The mantissa of a double has at most 53 bits, and exactly 53 above the
    least exponent. *)
Lemma finite_mantissa (x : float) (sg : bool) (m : positive) (e : Z) :
  Prim2SF x = S754_finite sg m e ->
  Z.pos m < 2 ^ 53 /\ (-1074 < e -> 2 ^ 52 <= Z.pos m).
Proof.
  intros Hx. pose proof (Prim2SF_valid x) as Hv. rewrite Hx in Hv.
  cbn [SpecFloat.valid_binary] in Hv. unfold bounded, canonical_mantissa in Hv.
  apply andb_true_iff in Hv as [Hc _]. apply Z.eqb_eq in Hc.
  unfold fexp in Hc.
  change (SpecFloat.emin prec emax) with (-1074) in Hc.
  change prec with 53 in Hc.
  pose proof (digits2_pos_bounds m) as [Hlo Hhi].
  assert (Hd : Z.pos (digits2_pos m) <= 53) by lia.
  split.
  - eapply Z.lt_le_trans; [exact Hhi|]. apply Z.pow_le_mono_r; lia.
  - intros He. assert (Hd' : Z.pos (digits2_pos m) = 53) by lia.
    rewrite Hd' in Hlo. exact Hlo.
Qed.

Lemma pow2_pos (k : Z) : 0 <= k -> 0 < 2 ^ k.
Proof. intros. apply Z.pow_pos_nonneg; lia. Qed.

(** Truncating [m * 2^e] for a mantissa of 53 bits. *)
Lemma trunc_lower (m : positive) (e k : Z) :
  2 ^ 52 <= Z.pos m -> 0 <= k <= 52 -> - k <= e -> 2 ^ (52 - k) <= trunc false m e.
Proof.
  intros Hm Hk He. unfold trunc.
  destruct (0 <=? e) eqn:E.
  - apply Z.leb_le in E.
    assert (1 <= 2 ^ e) by (pose proof (pow2_pos e E); lia).
    assert (2 ^ (52 - k) <= 2 ^ 52) by (apply Z.pow_le_mono_r; lia).
    nia.
  - apply Z.leb_gt in E.
    apply Z.div_le_lower_bound; [apply pow2_pos; lia|].
    rewrite <- Z.pow_add_r by lia.
    eapply Z.le_trans; [|exact Hm]. apply Z.pow_le_mono_r; lia.
Qed.

Lemma trunc_upper (m : positive) (e k : Z) :
  Z.pos m < 2 ^ 53 -> 0 <= k <= 52 -> e < - k -> trunc false m e < 2 ^ (52 - k).
Proof.
  intros Hm Hk He. unfold trunc.
  assert (E : (0 <=? e) = false) by (apply Z.leb_gt; lia). rewrite E.
  apply Z.div_lt_upper_bound; [apply pow2_pos; lia|].
  eapply Z.lt_le_trans; [exact Hm|].
  rewrite <- Z.pow_add_r by lia. apply Z.pow_le_mono_r; lia.
Qed.

Lemma trunc_nonneg (m : positive) (e : Z) : 0 <= trunc false m e.
Proof.
  unfold trunc. destruct (0 <=? e) eqn:E.
  - apply Z.leb_le in E. pose proof (pow2_pos e E). nia.
  - apply Z.leb_gt in E. apply Z.div_pos; [lia|apply pow2_pos; lia].
Qed.

Lemma trunc_negative (m : positive) (e : Z) : trunc true m e <= 0.
Proof.
  pose proof (trunc_nonneg m e) as H. unfold trunc in *.
  destruct (0 <=? e); lia.
Qed.

(** The two clamps of the quality branches, for a cap that a double holds
    exactly as [mc * 2^(-k)]. *)
Lemma capped_spec (x : float) (cap : Z) (mc : positive) (k : Z) :
  Prim2SF (float_of_int cap) = S754_finite false mc (- k) ->
  1 <= k <= 52 -> Z.pos mc = cap * 2 ^ k -> 2 ^ 52 <= Z.pos mc < 2 ^ 53 ->
  PrimFloat.is_nan x = false ->
  exists n,
    py_int (capped (PyFloat x) cap) = Ok n
    /\ 0 <= n <= cap
    /\ (forall m, py_int (PyFloat x) = Ok m -> n = clamp m 0 cap).
Proof.
  intros Hcap Hk Hmc Hdig Hnan.
  assert (H0 : Prim2SF (float_of_int 0) = S754_zero false) by reflexivity.
  assert (Hpow : 0 < 2 ^ k) by (apply pow2_pos; lia).
  assert (Hcap_lo : 2 ^ (52 - k) <= cap).
  { assert (2 ^ 52 = 2 ^ (52 - k) * 2 ^ k)
      by (rewrite <- Z.pow_add_r by lia; f_equal; lia).
    nia. }
  assert (Hcap_hi : cap < 2 ^ (53 - k)).
  { assert (2 ^ 53 = 2 ^ (53 - k) * 2 ^ k)
      by (rewrite <- Z.pow_add_r by lia; f_equal; lia).
    nia. }
  assert (Hcap0 : 0 <= cap).
  { pose proof (pow2_pos (52 - k)). lia. }
  assert (Hgt : num_gt (PyFloat x) cap
                = SFltb (S754_finite false mc (- k)) (Prim2SF x))
    by (cbn [num_gt]; now rewrite FloatAxioms.ltb_spec, Hcap).
  assert (Hlt : num_lt (PyFloat x) 0 = SFltb (Prim2SF x) (S754_zero false))
    by (cbn [num_lt]; now rewrite FloatAxioms.ltb_spec, H0).
  assert (Hc0 : num_lt (PyInt cap) 0 = false) by (apply Z.ltb_ge; lia).
  unfold capped, clamp. rewrite Hgt. cbn [py_int].
  destruct (Prim2SF x) as [sg|sg| |sg m e] eqn:Hx.
  - (* zero *)
    cbn [SFltb SFcompare]. rewrite Hlt. cbn [SFltb SFcompare py_int].
    rewrite Hx. exists 0. split; [reflexivity|]. split; [lia|].
    intros m [= <-]. lia.
  - (* infinity *)
    destruct sg; cbn [SFltb SFcompare].
    + rewrite Hlt. cbn [SFltb SFcompare py_int].
      exists 0. split; [reflexivity|]. split; [lia|]. discriminate.
    + rewrite Hc0. exists cap. split; [reflexivity|]. split; [lia|].
      discriminate.
  - apply is_nan_spec in Hx. congruence.
  - destruct (finite_mantissa x sg m e Hx) as [Hhi Hlo].
    destruct sg.
    + (* negative *)
      cbn [SFltb SFcompare]. rewrite Hlt. cbn [SFltb SFcompare py_int].
      exists 0. split; [reflexivity|]. split; [lia|].
      intros t [= <-]. pose proof (trunc_negative m e). lia.
    + assert (Hlt' : num_lt (PyFloat x) 0 = false) by now rewrite Hlt.
      assert (Hord : if SFltb (S754_finite false mc (- k)) (S754_finite false m e)
                     then cap <= trunc false m e
                     else trunc false m e <= cap).
      { unfold SFltb, SFcompare.
        change (PosDef.Pos.compare_cont Eq mc m) with (Pos.compare mc m).
        destruct (Z.compare_spec (- k) e) as [He|He|He].
        - subst e.
          assert (Ht : trunc false m (- k) = Z.pos m / 2 ^ k).
          { unfold trunc.
            assert (E : (0 <=? - k) = false) by (apply Z.leb_gt; lia).
            now rewrite E, Z.opp_involutive. }
          assert (Hc : cap = Z.pos mc / 2 ^ k)
            by (rewrite Hmc, Z.div_mul; lia).
          rewrite Ht, Hc.
          destruct (Pos.compare_spec mc m) as [Hm|Hm|Hm].
          + subst m. lia.
          + apply Z.div_le_mono; lia.
          + apply Z.div_le_mono; lia.
        - pose proof (trunc_lower m e (k - 1) (Hlo ltac:(lia))
                        ltac:(lia) ltac:(lia)).
          replace (52 - (k - 1)) with (53 - k) in * by lia. lia.
        - pose proof (trunc_upper m e k Hhi ltac:(lia) ltac:(lia)). lia. }
      pose proof (trunc_nonneg m e).
      destruct (SFltb (S754_finite false mc (- k)) (S754_finite false m e)).
      * rewrite Hc0. exists cap. split; [reflexivity|]. split; [lia|].
        intros t [= <-]. lia.
      * rewrite Hlt'. cbn [py_int]. rewrite Hx.
        exists (trunc false m e). split; [reflexivity|].
        split; [lia|]. intros t [= <-]. lia.
Qed.

(** X15.  A quality setting is clamped, or the call fails.  When the unit
    (the second piece of the lower-cased text) names neither kb nor mb and
    holds "crf" or "cqp" (cap 63; "cqp" also holds "qp", but is tried
    first) or else "qp" (cap 255): a number [locale.atof] rejects gives "0"
    with a warning; a number it reads as NaN passes both comparisons and
    makes [int] raise [ValueError], outside the [try]; every other number,
    the infinities included, gives an integer between 0 and the cap, the
    number cut towards zero and clamped. *)
Theorem quality_numbers_are_clamped
    (pf : Platform) (text number unit : string) (rest : list string) (cap : Z) :
  split " " (str_lower pf text) = number :: unit :: rest ->
  Py.contains "kb" unit = false ->
  Py.contains "mb" unit = false ->
  (Py.contains "crf" unit || Py.contains "cqp" unit = true /\ cap = 63)
  \/ (Py.contains "crf" unit || Py.contains "cqp" unit = false
      /\ Py.contains "qp" unit = true /\ cap = 255) ->
  match atof pf number with
  | None =>
      convert_to_bytes pf text
      = Ok (Some ("Failed to convert bitrate string to bytes: " ++ text)%string,
            "0")
  | Some x =>
      if PrimFloat.is_nan x
      then convert_to_bytes pf text = Raise "cannot convert float NaN to integer"
      else exists n,
             convert_to_bytes pf text = Ok (None, Py.str n)
             /\ 0 <= n <= cap
             /\ (forall m, py_int (PyFloat x) = Ok m -> n = clamp m 0 cap)
  end.
Proof.
  intros Hsplit Hkb Hmb Hunit.
  unfold convert_to_bytes, bit_rate_bytes. rewrite Hsplit.
  destruct (atof pf number) as [x|]; [|reflexivity].
  rewrite Hkb, Hmb.
  assert (Hb : (if Py.contains "crf" unit || Py.contains "cqp" unit
                then capped (PyFloat x) 63
                else if Py.contains "qp" unit
                     then capped (PyFloat x) 255 else PyInt 0)
               = capped (PyFloat x) cap).
  { destruct Hunit as [[-> ->]|(-> & -> & ->)]; reflexivity. }
  rewrite Hb.
  destruct (PrimFloat.is_nan x) eqn:Hnan.
  - apply is_nan_spec in Hnan.
    assert (Hc : capped (PyFloat x) cap = PyFloat x).
    { unfold capped, num_gt, num_lt. rewrite !FloatAxioms.ltb_spec, Hnan.
      cbn [SFltb SFcompare].
      destruct (Prim2SF (float_of_int cap)); cbn [SFltb SFcompare];
        rewrite FloatAxioms.ltb_spec, Hnan; reflexivity. }
    rewrite Hc. cbn [py_int]. now rewrite Hnan.
  - assert (Hs : exists n,
               py_int (capped (PyFloat x) cap) = Ok n
               /\ 0 <= n <= cap
               /\ (forall m, py_int (PyFloat x) = Ok m -> n = clamp m 0 cap)).
    { destruct Hunit as [[_ ->]|(_ & _ & ->)].
      - apply (capped_spec x 63 8866461766385664 47);
          [reflexivity|lia|reflexivity|split; [discriminate|reflexivity]
          |exact Hnan].
      - apply (capped_spec x 255 8972014882652160 45);
          [reflexivity|lia|reflexivity|split; [discriminate|reflexivity]
          |exact Hnan]. }
    destruct Hs as (n & Hn & Hr & Hm). exists n. rewrite Hn. cbn [Py.bind].
    auto.
Qed.

Lemma quality_numbers_are_clamped_witness :
  split " " (str_lower sample_platform "70 CQP") = ["70"; "cqp"]
  /\ Py.contains "qp" "cqp" = true
  /\ atof sample_platform "70" = Some 70%float
  /\ exists n,
       convert_to_bytes sample_platform "70 CQP" = Ok (None, Py.str n)
       /\ 0 <= n <= 63
       /\ (forall m, py_int (PyFloat 70) = Ok m -> n = clamp m 0 63).
Proof.
  split; [reflexivity|]. split; [reflexivity|]. split; [reflexivity|].
  exact (quality_numbers_are_clamped sample_platform "70 CQP" "70" "cqp" [] 63
           eq_refl eq_refl eq_refl (or_introl (conj eq_refl eq_refl))).
Defined.

Lemma split_without_separator (s : string) :
  Py.contains " " s = false -> split " " s = [s].
Proof.
  induction s as [|c s IH]; [reflexivity|].
  cbn [Py.contains String.prefix split].
  destruct (Ascii.ascii_dec " " c) as [<-|Hne].
  - now destruct s.
  - intros H. rewrite (IH H).
    assert (Hc : Ascii.eqb c " " = false)
      by (apply Ascii.eqb_neq; congruence).
    now rewrite Hc.
Qed.

Lemma no_qp_no_cqp (unit : string) :
  Py.contains "qp" unit = false -> Py.contains "cqp" unit = false.
Proof.
  intros Hqp. induction unit as [|c u IH]; [reflexivity|].
  cbn [Py.contains] in *.
  destruct (String.prefix "qp" (String c u)) eqn:E; [discriminate|].
  destruct (String.prefix "cqp" (String c u)) eqn:E'.
  - exfalso. cbn [String.prefix] in E'.
    destruct (Ascii.ascii_dec "c" c); [|discriminate].
    destruct u as [|c' u']; [discriminate|].
    cbn [Py.contains] in Hqp. now rewrite E' in Hqp.
  - now apply IH.
Qed.

(** X16.  Text that cannot be read gives "0" and no exception: a text whose
    lower-cased form holds no space (no unit), a number [locale.atof]
    rejects (a warning is logged), or a unit whose lower-cased form names
    none of kb, mb, crf, cqp and qp. *)
Theorem unreadable_bit_rate_is_zero (pf : Platform) (text : string) :
  (Py.contains " " (str_lower pf text) = false ->
   convert_to_bytes pf text = Ok (None, "0"))
  /\ (forall number unit rest,
         split " " (str_lower pf text) = number :: unit :: rest ->
         atof pf number = None ->
         convert_to_bytes pf text
         = Ok (Some ("Failed to convert bitrate string to bytes: " ++ text)%string,
               "0"))
  /\ (forall number unit rest x,
         split " " (str_lower pf text) = number :: unit :: rest ->
         atof pf number = Some x ->
         Py.contains "kb" unit = false -> Py.contains "mb" unit = false ->
         Py.contains "crf" unit = false -> Py.contains "qp" unit = false ->
         convert_to_bytes pf text = Ok (None, "0")).
Proof.
  split; [|split].
  - intros H. unfold convert_to_bytes, bit_rate_bytes.
    now rewrite (split_without_separator _ H).
  - intros number unit rest Hs Ha. unfold convert_to_bytes, bit_rate_bytes.
    now rewrite Hs, Ha.
  - intros number unit rest x Hs Ha Hkb Hmb Hcrf Hqp.
    unfold convert_to_bytes, bit_rate_bytes. rewrite Hs, Ha.
    rewrite Hkb, Hmb, Hcrf, Hqp.
    now rewrite (no_qp_no_cqp unit Hqp).
Qed.

Lemma unreadable_bit_rate_is_zero_witness :
  Py.contains " " (str_lower sample_platform "15Mb/s") = false
  /\ convert_to_bytes sample_platform "15Mb/s" = Ok (None, "0").
Proof.
  split; [reflexivity|].
  apply (proj1 (unreadable_bit_rate_is_zero sample_platform "15Mb/s")).
  reflexivity.
Defined.

(** ** Profiles *)

Lemma prefix_refl (s : string) : String.prefix s s = true.
Proof.
  induction s as [|c s IH]; [reflexivity|].
  cbn. now destruct (Ascii.ascii_dec c c).
Qed.

Lemma contains_refl (s : string) : Py.contains s s = true.
Proof. destruct s; cbn [Py.contains]; now rewrite prefix_refl. Qed.

(** X18.  When a profile is stored under a name that no other name of the
    dict holds, with a path no other profile has, the two look-ups give it
    back: the combo box shows the profile under its own name and path. *)
Theorem stored_profile_is_found
    (profile_paths : dict) (profile_name profile_path : string) :
  (forall name path,
      In (name, path) profile_paths -> name <> profile_name ->
      Py.contains profile_name name = false /\ path <> profile_path) ->
  let d := dict_set profile_paths profile_name profile_path in
  getProfilePath d profile_name = Some profile_path
  /\ getProfileName d (Some profile_path) = Some profile_name
  /\ forall names combo,
       snd (add_profile names profile_paths combo profile_name profile_path)
       = combo ++ [(Some profile_name, Some profile_path)].
Proof.
  intros H. cbv zeta.
  assert (H' : getProfilePath (dict_set profile_paths profile_name profile_path)
                 profile_name = Some profile_path
               /\ getProfileName (dict_set profile_paths profile_name profile_path)
                    (Some profile_path) = Some profile_name).
  { induction profile_paths as [|[k v] d IH]; cbn [dict_set].
    - cbn. now rewrite contains_refl, String.eqb_refl.
    - destruct (String.eqb k profile_name) eqn:E.
      + apply String.eqb_eq in E as ->. cbn.
        now rewrite contains_refl, String.eqb_refl.
      + apply String.eqb_neq in E.
        destruct (H k v (or_introl eq_refl) E) as [Hc Hp].
        cbn. rewrite Hc.
        assert (Hv : String.eqb profile_path v = false)
          by (apply String.eqb_neq; congruence).
        rewrite Hv. apply IH.
        intros name path Hin. apply H. now right. }
  destruct H' as [H1 H2].
  split; [exact H1|]. split; [exact H2|].
  intros names combo. unfold add_profile. cbn [snd].
  now rewrite H1, H2.
Qed.

Lemma stored_profile_is_found_witness :
  getProfilePath (dict_set [("HD 720p 30 fps (1280x720)", "hd720")]
                    "NTSC (720x480)" "ntsc") "NTSC (720x480)"
  = Some "ntsc".
Proof.
  apply (stored_profile_is_found [("HD 720p 30 fps (1280x720)", "hd720")]
           "NTSC (720x480)" "ntsc").
  intros name path [H|[]] _. injection H as <- <-.
  split; [reflexivity|discriminate].
Defined.

(** A name that is part of an earlier name gets the earlier profile: the
    look-up tests [profile_name in profile], not equality. *)
Example profile_with_a_longer_namesake :
  snd (add_profile ["DV/DVD NTSC (720x480)"] [("DV/DVD NTSC (720x480)", "dv_ntsc")]
         [] "NTSC (720x480)" "ntsc")
  = [(Some "DV/DVD NTSC (720x480)", Some "dv_ntsc")].
Proof. reflexivity. Qed.

(** X19.  For every name of the dict both look-ups succeed: the path found
    is that of a profile of the dict whose name holds the given name, and
    the name found for that path is that of a profile with that path.  So
    the combo box is never given a missing name or path. *)
Theorem every_profile_name_is_found
    (profile_paths : dict) (profile_name profile_path : string) :
  In (profile_name, profile_path) profile_paths ->
  exists path name holder,
    getProfilePath profile_paths profile_name = Some path
    /\ In (holder, path) profile_paths
    /\ Py.contains profile_name holder = true
    /\ getProfileName profile_paths (Some path) = Some name
    /\ In (name, path) profile_paths.
Proof.
  intros Hin.
  assert (H1 : exists path holder,
             getProfilePath profile_paths profile_name = Some path
             /\ In (holder, path) profile_paths
             /\ Py.contains profile_name holder = true).
  { induction profile_paths as [|[k v] d IH]; [contradiction|].
    cbn [getProfilePath].
    destruct (Py.contains profile_name k) eqn:E.
    - exists v, k. repeat split; auto. now left.
    - destruct Hin as [Heq|Hin].
      + injection Heq as -> ->. now rewrite contains_refl in E.
      + destruct (IH Hin) as (path & holder & Hp & Hh & Hc).
        exists path, holder. repeat split; auto. now right. }
  destruct H1 as (path & holder & Hp & Hh & Hc).
  assert (H2 : forall d, In (holder, path) d ->
                         exists name, getProfileName d (Some path) = Some name
                                      /\ In (name, path) d).
  { clear. induction d as [|[k v] d IH]; [contradiction|].
    intros Hin. cbn [getProfileName].
    destruct (String.eqb path v) eqn:E.
    - apply String.eqb_eq in E as <-. exists k. split; [reflexivity|now left].
    - destruct Hin as [Heq|Hin].
      + injection Heq as _ ->. now rewrite String.eqb_refl in E.
      + destruct (IH Hin) as (name & Hn & Hi).
        exists name. split; [exact Hn|now right]. }
  destruct (H2 profile_paths Hh) as (name & Hn & Hi).
  exists path, name, holder. auto.
Qed.

Lemma every_profile_name_is_found_witness :
  exists path name holder,
    getProfilePath [("DV/DVD NTSC (720x480)", "dv_ntsc"); ("NTSC (720x480)", "ntsc")]
      "NTSC (720x480)" = Some path
    /\ In (holder, path)
         [("DV/DVD NTSC (720x480)", "dv_ntsc"); ("NTSC (720x480)", "ntsc")]
    /\ Py.contains "NTSC (720x480)" holder = true
    /\ getProfileName
         [("DV/DVD NTSC (720x480)", "dv_ntsc"); ("NTSC (720x480)", "ntsc")]
         (Some path) = Some name
    /\ In (name, path)
         [("DV/DVD NTSC (720x480)", "dv_ntsc"); ("NTSC (720x480)", "ntsc")].
Proof.
  apply (every_profile_name_is_found
           [("DV/DVD NTSC (720x480)", "dv_ntsc"); ("NTSC (720x480)", "ntsc")]
           "NTSC (720x480)" "ntsc").
  right. now left.
Defined.

Lemma first_index_spec {A : Type} (passes : A -> bool) (items : list A) (i0 : Z) :
  let i := first_index passes items i0 in
  0 <= i0 ->
  (i = -1 /\ Forall (fun item => passes item = false) items)
  \/ (i0 <= i < i0 + Z.of_nat (List.length items)
      /\ exists item,
           nth_error items (Z.to_nat (i - i0)) = Some item
           /\ passes item = true
           /\ Forall (fun item' => passes item' = false)
                (firstn (Z.to_nat (i - i0)) items)).
Proof.
  cbv zeta.
  revert i0. induction items as [|x l IH]; intros i0 Hi0; cbn [first_index].
  - left. split; [reflexivity|constructor].
  - destruct (passes x) eqn:E.
    + right. split; [cbn [List.length]; lia|].
      exists x. rewrite Z.sub_diag. cbn. auto.
    + destruct (IH (i0 + 1) ltac:(lia)) as [[Hm Hall]|(Hr & item & Hn & Hp & Hf)].
      * left. split; [exact Hm|]. now constructor.
      * right. split; [cbn [List.length]; lia|].
        exists item.
        replace (Z.to_nat (first_index passes l (i0 + 1) - i0))
          with (S (Z.to_nat (first_index passes l (i0 + 1) - (i0 + 1)))) by lia.
        cbn [nth_error firstn]. repeat split; auto.
Qed.

(** X20.  Asked for a name that is not empty, [getVideoProfileIndex] gives
    either -1, and then no item of the combo box has that text, or the
    index of the first item with that text, within the box; a profile key
    given besides is not looked at. *)
Theorem video_profile_index_by_name
    (key_of : string -> string) (items : list (string * string))
    (name : string) (profile_key : option string) :
  name <> EmptyString ->
  exists i,
    getVideoProfileIndex key_of items (Some name) profile_key = Some i
    /\ ((i = -1 /\ Forall (fun item => fst item <> name) items)
        \/ (0 <= i < Z.of_nat (List.length items)
            /\ (exists data, nth_error items (Z.to_nat i) = Some (name, data))
            /\ Forall (fun item => fst item <> name) (firstn (Z.to_nat i) items))).
Proof.
  intros Hname. unfold getVideoProfileIndex.
  destruct name as [|c name']; [contradiction|].
  eexists. split; [reflexivity|].
  pose proof (first_index_spec (fun item => String.eqb (fst item) (String c name'))
                items 0) as H.
  cbv zeta in H.
  destruct (H ltac:(lia)) as [[Hm Hall]|(Hr & item & Hn & Hp & Hf)].
  - left. split; [exact Hm|].
    eapply Forall_impl; [|exact Hall]. cbn. intros item. apply String.eqb_neq.
  - right. rewrite Z.sub_0_r in *. split; [lia|]. split.
    + destruct item as [t d]. cbn in Hp. apply String.eqb_eq in Hp as ->.
      now exists d.
    + eapply Forall_impl; [|exact Hf]. cbn. intros item'. apply String.eqb_neq.
Qed.

Lemma video_profile_index_by_name_witness :
  "HD 720p" <> EmptyString
  /\ getVideoProfileIndex (fun p => p)
       [("NTSC", "ntsc"); ("HD 720p", "hd720"); ("HD 720p", "hd720b")]
       (Some "HD 720p") None = Some 1
  /\ getVideoProfileIndex (fun p => p) [("NTSC", "ntsc")] (Some "PAL") None
     = Some (-1).
Proof.
  split; [discriminate|].
  destruct (video_profile_index_by_name (fun p => p)
              [("NTSC", "ntsc"); ("HD 720p", "hd720"); ("HD 720p", "hd720b")]
              "HD 720p" None) as (i & Hi & _); [discriminate|].
  split; reflexivity.
Defined.

(** ** Dragging files *)

Lemma firstn_min_length {A : Type} (n : nat) (l : list A) :
  firstn (Nat.min n (List.length l)) l = firstn n l.
Proof.
  destruct (Nat.le_ge_cases n (List.length l)) as [H|H].
  - now rewrite Nat.min_l.
  - rewrite Nat.min_r by exact H.
    now rewrite firstn_all, firstn_all2.
Qed.

Lemma icons_of_length {icon : Type} (rows : list (option icon)) :
  (List.length (icons_of rows) <= List.length rows)%nat.
Proof.
  induction rows as [|[i|] rows IH]; cbn; lia.
Qed.

Lemma draw_icons_spec {icon : Type} (idx : Z) (icons : list icon) :
  map snd (draw_icons 1 idx icons) = icons
  /\ List.length (draw_icons 1 idx icons) = List.length icons
  /\ map fst (draw_icons 1 idx icons)
     = map (fun k => 49 * k) (frames_from idx (List.length icons))
  /\ (0 <= idx ->
      Forall (fun d => 0 <= fst d
                       /\ fst d + 48
                          <= 49 * (idx + Z.of_nat (List.length icons)) - 1)
        (draw_icons 1 idx icons)).
Proof.
  revert idx. induction icons as [|i icons IH]; intros idx.
  - cbn. repeat split; auto.
  - destruct (IH (idx + 1)) as (H1 & H2 & H3 & H4).
    cbn [draw_icons map List.length frames_from]. rewrite H1, H2, H3.
    unfold drag_item_size. cbn [fst snd].
    repeat split; try reflexivity.
    + f_equal. lia.
    + intros Hidx. constructor; [cbn [fst]; lia|].
      eapply Forall_impl; [|apply H4; lia]. cbn beta. intros d. lia.
Qed.

(** X22.  [startDrag] gives up exactly when none of the first three
    selected rows has an icon.  Otherwise it draws those icons, one to
    three of them, left to right at offsets 0, 49, 98 on a pixmap 48 high
    that they fill with one pixel between them and none past its right
    edge, and the drag carries every selected row, also rows past the third
    and rows without an icon. *)
Theorem drag_pixmap_holds_the_icons {icon : Type} (selected : list (option icon)) :
  match startDrag selected with
  | DragAborted _ => icons_of (firstn 3 selected) = []
  | DragStarted width height drawn mime_rows =>
      mime_rows = selected
      /\ map snd drawn = icons_of (firstn 3 selected)
      /\ (1 <= List.length drawn <= 3)%nat
      /\ height = 48
      /\ width = 49 * Z.of_nat (List.length drawn) - 1
      /\ map fst drawn = map (fun k => 49 * k) (frames_from 0 (List.length drawn))
      /\ Forall (fun d => 0 <= fst d /\ fst d + 48 <= width) drawn
  end.
Proof.
  unfold startDrag.
  destruct selected as [|row rows]; [reflexivity|].
  rewrite firstn_min_length.
  set (sel := row :: rows).
  pose proof (icons_of_length (firstn 3 sel)) as Hlen.
  pose proof (firstn_le_length 3 sel) as Hlen'.
  destruct (icons_of (firstn 3 sel)) as [|i icons] eqn:E; [reflexivity|].
  cbv zeta.
  destruct (draw_icons_spec 0 (i :: icons)) as (H1 & H2 & H3 & H4).
  rewrite H1, H2, H3. unfold drag_item_size.
  repeat split; try reflexivity.
  - cbn [List.length]. lia.
  - pose proof (Nat.le_min_l 3 (List.length sel)).
    rewrite length_firstn in Hlen. lia.
  - lia.
  - eapply Forall_impl; [|apply H4; lia]. cbn beta. intros d. lia.
Qed.

Example drag_of_five_rows :
  startDrag [Some "a"; None; Some "c"; Some "d"; Some "e"]
  = DragStarted 97 48 [(0, "a"); (49, "c")]
      [Some "a"; None; Some "c"; Some "d"; Some "e"]
  /\ startDrag [None; None; None; Some "d"]
     = DragAborted "No valid icons found for dragging!"
  /\ startDrag (@nil (option string))
     = DragAborted "No draggable items found in model!".
Proof. repeat split; reflexivity. Qed.

(** ** The titles of the signals *)

Lemma titlestring_shows_a_time (sec : Z) (fps : Q) (mess : string) :
  0 <= sec -> shows_a_time (titlestring sec fps mess).
Proof.
  intros Hsec.
  destruct (titlestring_splits_the_seconds_aux sec fps mess Hsec)
    as (h & m & x & -> & Hh & Hm & Hx & _).
  cbn. auto.
Qed.

Section Titles.

Variable env : Env.
Variables s e : Z.
Hypothesis clock_forward : forall i, (clock env 0 <= clock env i)%Q.

Lemma update_progress_shows_a_time (i j : nat) (f : Z) (p p' : progress) :
  s <= f <= e ->
  update_progress (libm_log10 env) (clock env 0) (clock env i) (clock env j)
    s e f p = Ok p' ->
  shows_a_time (title_message p) -> shows_a_time (title_message p').
Proof.
  intros Hf H Hp. unfold update_progress in H.
  destruct (Py.truediv _ _); cbn [Py.bind] in H; [|discriminate].
  destruct (digits_after_decimalpoint _ _); cbn [Py.bind] in H; [|discriminate].
  destruct (negb (f - s =? 0)) eqn:Hne; cbn [andb] in H.
  - destruct (Py.ne (clock env i - clock env 0) 0).
    + apply negb_true_iff, Z.eqb_neq in Hne.
      destruct (seconds_left_value (clock env 0) (clock env i) f s e)
        as (n & Hn & Hn0 & _); [lia|apply clock_forward|].
      rewrite Hn in H. cbn [Py.bind] in H.
      destruct (fps_of _ _ _ _); cbn [Py.bind] in H; [|discriminate].
      injection H as <-. cbn [title_message].
      destruct (f =? e); [exact I|now apply titlestring_shows_a_time].
    + injection H as <-. exact Hp.
  - injection H as <-. exact Hp.
Qed.

Lemma frame_loop_shows_a_time (n : nat) (f : Z) (st : locals)
    (evs : list event) (ex : loop_exit) (st' : locals) :
  s <= f -> f + Z.of_nat n <= e + 1 ->
  frame_loop env (clock env 0) s e n f st = (evs, ex, st') ->
  shows_a_time (title_message (shown st)) ->
  Forall signal_shows_a_time evs
  /\ (end_time_export st' = end_time_export st
      \/ exists i, end_time_export st' = Some (clock env i)).
Proof.
  revert f st evs ex st'.
  induction n as [|n IH]; intros f st evs ex st' Hlo Hhi H Hst.
  - cbn in H. injection H as <- <- <-. split; [constructor|now left].
  - apply frame_loop_cases in H. cbn zeta in H.
    destruct H as [(msg & _ & -> & _ & ->)|(sig & r & p & Hd & H)].
    { split; [constructor|]. right. eexists. reflexivity. }
    assert (Hp : shows_a_time (title_message p)
                 /\ Forall signal_shows_a_time sig).
    { apply display_inv in Hd as [[-> ->]|[-> Hup]].
      - split; [exact Hst|constructor].
      - apply update_progress_shows_a_time in Hup; [|lia|exact Hst].
        split; [exact Hup|]. repeat constructor. exact Hup. }
    destruct Hp as [Hp Hsig].
    destruct H as [(msg & _ & -> & _ & ->)
                  |[(_ & _ & -> & _ & ->)
                   |(_ & _ & rest & Hrest & ->)]].
    + split; [|right; eexists; reflexivity].
      apply Forall_app. split; [exact Hsig|repeat constructor].
    + split; [|right; eexists; reflexivity].
      apply Forall_app. split; [exact Hsig|repeat constructor].
    + apply IH in Hrest as [Hr Ht]; [| lia | lia | exact Hp].
      split.
      * apply Forall_app. split; [exact Hsig|]. constructor; [exact I|exact Hr].
      * right. destruct Ht as [-> | Ht]; [eexists; reflexivity|exact Ht].
Qed.

End Titles.

(** X23.  With a clock that never reads less than at the start of the
    export, every title sent with a progress signal is the empty one, the
    finalizing text, or a time whose hours are not negative and whose
    minutes and seconds are within 0..59: the remaining and the elapsed
    time are never negative. *)
Theorem every_title_shows_a_proper_time
    (env : Env) (cfg : settings) (path : string) (s e : Z) :
  (forall i, (clock env 0 <= clock env i)%Q) ->
  Forall signal_shows_a_time (events (export env cfg path s e)).
Proof.
  intros Hclock.
  destruct (export_loop env s e) as [[evs ex] st] eqn:Hloop.
  assert (Hh : forall msg, Forall signal_shows_a_time (except_handler cfg msg)).
  { intros msg. eapply Forall_impl; [|apply except_handler_events].
    intros ev Hev. now destruct ev. }
  destruct (export_shape env cfg path s e evs ex st Hloop) as [_ Hs].
  cbv zeta in Hs.
  destruct (Z_le_gt_dec s e) as [Hse|Hse].
  - destruct (frame_loop_shows_a_time env s e Hclock
                (Z.to_nat (e + 1 - s)) s (initial_locals env) evs ex st)
      as [Hevs Ht]; [lia|lia|exact Hloop|exact I|].
    assert (Hfinal : forall t, end_time_export st = Some t ->
                               shows_a_time
                                 (titlestring (Py.round (t - clock env 0)%Q)
                                    (fps_encode (shown st)) "Elapsed")).
    { intros t Heq. apply titlestring_shows_a_time, round_nonneg.
      destruct Ht as [Ht|[i Ht]]; rewrite Ht in Heq; [discriminate|].
      injection Heq as <-. specialize (Hclock i). lra. }
    destruct ex, (end_time_export st) as [t|]; destruct Hs as [_ ->];
      repeat (apply Forall_app; split);
      try exact Hevs; try apply Hh;
      repeat constructor; cbn [signal_shows_a_time]; now apply Hfinal.
  - assert (Hnil : (evs, ex, st) = ([], Exhausted, initial_locals env)).
    { rewrite <- Hloop. unfold export_loop.
      now replace (Z.to_nat (e + 1 - s)) with O by lia. }
    injection Hnil as -> -> ->. cbn in Hs. destruct Hs as [_ ->].
    repeat (apply Forall_app; split); try apply Hh; repeat constructor.
Qed.

Lemma every_title_shows_a_proper_time_witness :
  (forall i, (clock (quiet (1 # 25)) 0 <= clock (quiet (1 # 25)) i)%Q)
  /\ Forall signal_shows_a_time
       (events (export (quiet (1 # 25)) sample_settings "out.mp4" 1 100)).
Proof.
  assert (H : forall i, (clock (quiet (1 # 25)) 0 <= clock (quiet (1 # 25)) i)%Q).
  { intros i. cbn. unfold steady_clock, Qle. cbn. lia. }
  split; [exact H|].
  exact (every_title_shows_a_proper_time
           (quiet (1 # 25)) sample_settings "out.mp4" 1 100 H).
Defined.
